(** * cv-calendar: the local/remote reconciliation of [src/App.tsx]

    [src/App.tsx] holds three variants of the same React component:

    - lines 1-145: the local-only calendar ([V1] below);
    - lines 146-575: the Firestore calendar with local-date keys, the
      upload sweep and [deleteItem] ([V2]);
    - lines 576-906: the Firestore calendar with UTC keys and [removeItem]
      ([V3]).

    React state is modelled by explicit state passing: every
    [setItemsMap(prev => next)] updater is a pure function on the map of
    day buckets.  What the environment decides is an input: the clock, the
    time zone, the random suffix of a local identity, the content of local
    storage, and how each remote call settles.  The order in which
    renders, effects and promise settlements follow one another is a trace
    of events of a state machine. *)

From Stdlib Require Import ZArith Lia Ascii Sorting.Sorted.
From Stdlib Require String.
From stdpp Require Import base decidable option strings list gmap pretty.

(** ** JavaScript built-ins used by the component *)

Module JS.

(** [String(n)], and [`${n}`], of an integer-valued number below 10^21 in
    size, as time stamps and calendar fields are. *)
Definition String_of_number (n : Z) : string := pretty n.

(** [n || 0] on a number: [0] is the only falsy integer. *)
Definition or_zero (n : Z) : Z := if decide (n = 0%Z) then 0%Z else n.

(** [s.startsWith(p)]. *)
Definition startsWith (s p : string) : bool := String.prefix p s.

(** [s || d] on strings: the empty string is falsy. *)
Definition or_string (s d : string) : string :=
  if String.eqb s EmptyString then d else s.

Section Array_sort.
Context {A : Type} (compareFn : A → A → Z).

(** [Array.prototype.sort(compareFn)] is specified to be stable; the
    model is the stable insertion sort (the stable sort of a list under
    a consistent comparator is unique, see [stable_sort_unique]).  An
    element goes behind a later one only when [compareFn] is positive. *)
Fixpoint sort_insert (x : A) (l : list A) : list A :=
  match l with
  | [] => [x]
  | y :: l' =>
      if decide (0 < compareFn x y)%Z then y :: sort_insert x l'
      else x :: y :: l'
  end.

Definition Array_sort (l : list A) : list A := foldr sort_insert [] l.
End Array_sort.

End JS.

(** ** [Date]: the time values and calendar arithmetic of ECMAScript

    Time values are integer milliseconds since the epoch; [None] stands for
    [NaN], the time value of an invalid [Date], and for a [NaN] number. *)

Module JSDate.
Local Open Scope Z_scope.

Definition msPerDay : Z := 86400000.
Definition msPerHour : Z := 3600000.
Definition msPerMinute : Z := 60000.
Definition msPerSecond : Z := 1000.

Definition Day (t : Z) : Z := t / msPerDay.

Definition DaysInYear (y : Z) : Z :=
  if negb (y mod 4 =? 0) then 365
  else if negb (y mod 100 =? 0) then 366
  else if negb (y mod 400 =? 0) then 365
  else 366.

Definition DayFromYear (y : Z) : Z :=
  365 * (y - 1970) + (y - 1969) / 4 - (y - 1901) / 100 + (y - 1601) / 400.

(** The largest [y] with [DayFromYear y <= d] ([YearFromDay_spec]): the
    mean-year estimate is off by at most one. *)
Definition YearFromDay (d : Z) : Z :=
  let y0 := 1970 + (400 * d) / 146097 in
  if DayFromYear (y0 + 1) <=? d then y0 + 1
  else if DayFromYear y0 <=? d then y0
  else y0 - 1.

Definition YearFromTime (t : Z) : Z := YearFromDay (Day t).

Definition leapDays (y : Z) : Z := if DaysInYear y =? 366 then 1 else 0.
Definition InLeapYear (t : Z) : Z := leapDays (YearFromTime t).
Definition DayWithinYear (t : Z) : Z := Day t - DayFromYear (YearFromTime t).

(** Day within the year on which month [m] (0-11) starts. *)
Definition monthStart (leap m : Z) : Z :=
  match m with
  | 0 => 0 | 1 => 31 | 2 => 59 + leap | 3 => 90 + leap | 4 => 120 + leap
  | 5 => 151 + leap | 6 => 181 + leap | 7 => 212 + leap | 8 => 243 + leap
  | 9 => 273 + leap | 10 => 304 + leap | _ => 334 + leap
  end.

Definition monthOfDayWithinYear (leap dwy : Z) : Z :=
  if dwy <? 31 then 0
  else if dwy <? 59 + leap then 1
  else if dwy <? 90 + leap then 2
  else if dwy <? 120 + leap then 3
  else if dwy <? 151 + leap then 4
  else if dwy <? 181 + leap then 5
  else if dwy <? 212 + leap then 6
  else if dwy <? 243 + leap then 7
  else if dwy <? 273 + leap then 8
  else if dwy <? 304 + leap then 9
  else if dwy <? 334 + leap then 10
  else 11.

Definition MonthFromTime (t : Z) : Z :=
  monthOfDayWithinYear (InLeapYear t) (DayWithinYear t).

Definition DateFromTime (t : Z) : Z :=
  DayWithinYear t - monthStart (InLeapYear t) (MonthFromTime t) + 1.

Definition HourFromTime (t : Z) : Z := (t / msPerHour) mod 24.
Definition MinFromTime (t : Z) : Z := (t / msPerMinute) mod 60.
Definition SecFromTime (t : Z) : Z := (t / msPerSecond) mod 60.
Definition msFromTime (t : Z) : Z := t mod msPerSecond.

(** [MakeDay(year, month, date)]: the day number of the first of the
    month, plus [date - 1]; months and dates out of range carry over. *)
Definition MakeDay (year month date : Z) : Z :=
  let ym := year + month / 12 in
  let mn := month mod 12 in
  DayFromYear ym + monthStart (leapDays ym) mn + date - 1.

Definition MakeDate (day time : Z) : Z := day * msPerDay + time.

Definition TimeClip (t : Z) : option Z :=
  if 8640000000000000 <? Z.abs t then None else Some t.

(** The host's time zone, [LocalTZA(t, isUTC)]: the offset of local time
    at the UTC instant [t], or the offset by which the local time value
    [t] is to be read. *)
Record TimeZone : Type := { LocalTZA : Z → bool → Z }.

Definition LocalTime (tz : TimeZone) (t : Z) : Z := t + LocalTZA tz t true.
Definition UTC (tz : TimeZone) (t : Z) : Z := t - LocalTZA tz t false.

(** A zone with a constant offset. *)
Definition fixed_zone (offset : Z) : TimeZone :=
  {| LocalTZA := λ _ _, offset |}.

(** A zone whose offset changes from [before] to [after] at the UTC
    instant [T].  A local time that is skipped or repeated by the
    transition is read with the offset before it. *)
Definition dst_zone (T before after : Z) : TimeZone :=
  {| LocalTZA := λ t isUTC,
       if isUTC then (if t <? T then before else after)
       else if t - before <? T then before
       else if T <=? t - after then after
       else before |}.

(** A [Date] object: its time value. *)
Definition Date : Type := option Z.

(** [new Date(value)]. *)
Definition Date_of_value (value : option Z) : Date := value ≫= TimeClip.

(** [new Date(year, month, date)]: a year from 0 to 99 means 1900 + year,
    the fields are read as local time. *)
Definition Date_of_ymd (tz : TimeZone) (year month date : option Z) : Date :=
  y ← year; m ← month; dt ← date;
  let yr := if (0 <=? y) && (y <=? 99) then 1900 + y else y in
  TimeClip (UTC tz (MakeDate (MakeDay yr m dt) 0)).

Definition getTime (d : Date) : option Z := d.
Definition getFullYear (tz : TimeZone) (d : Date) : option Z :=
  (λ t, YearFromTime (LocalTime tz t)) <$> d.
Definition getMonth (tz : TimeZone) (d : Date) : option Z :=
  (λ t, MonthFromTime (LocalTime tz t)) <$> d.
Definition getDate (tz : TimeZone) (d : Date) : option Z :=
  (λ t, DateFromTime (LocalTime tz t)) <$> d.

(** [String(n)] of a number that may be [NaN]. *)
Definition String_of (n : option Z) : string :=
  from_option JS.String_of_number "NaN" n.

(** [s.padStart(n, "0")]. *)
Definition padStart0 (n : nat) (s : string) : string :=
  String.concat EmptyString (replicate (n - String.length s) "0"%string) +:+ s.

(** [d.toISOString()]: the UTC fields; years outside 0-9999 are written
    with a sign and six digits.  [None]: the [RangeError] thrown for an
    invalid date. *)
Definition toISOString (d : Date) : option string :=
  t ← d;
  let y := YearFromTime t in
  let year :=
    if (0 <=? y) && (y <=? 9999) then padStart0 4 (JS.String_of_number y)
    else (if y <? 0 then "-" else "+") +:+ padStart0 6 (JS.String_of_number (Z.abs y)) in
  Some (year +:+ "-" +:+ padStart0 2 (JS.String_of_number (MonthFromTime t + 1))
        +:+ "-" +:+ padStart0 2 (JS.String_of_number (DateFromTime t))
        +:+ "T" +:+ padStart0 2 (JS.String_of_number (HourFromTime t))
        +:+ ":" +:+ padStart0 2 (JS.String_of_number (MinFromTime t))
        +:+ ":" +:+ padStart0 2 (JS.String_of_number (SecFromTime t))
        +:+ "." +:+ padStart0 3 (JS.String_of_number (msFromTime t))
        +:+ "Z").

(** The calendar date with day number [d], as (year, month 1-12, day of
    the month), and the local calendar date of an instant. *)
Definition calendarDate (d : Z) : Z * Z * Z :=
  let t := MakeDate d 0 in
  (YearFromTime t, MonthFromTime t + 1, DateFromTime t).

Definition localCalendarDate (tz : TimeZone) (t : Z) : Z * Z * Z :=
  calendarDate (Day (LocalTime tz t)).

(** The time values a [Date] can hold. *)
Definition validTime (t : Z) : Prop := Z.abs t <= 8640000000000000.

(** The zone puts the local midnight of every day on that day: no
    transition skips a whole calendar day. *)
Definition keeps_midnight_day (tz : TimeZone) : Prop :=
  ∀ d : Z, Day (LocalTime tz (UTC tz (MakeDate d 0))) = d.

End JSDate.

(** ** [JSON.parse]

    A recursive-descent reader of the JSON grammar.  Numbers keep their
    lexeme; [\uXXXX] escapes are decoded to the UTF-8 bytes of the code
    unit.  [None] is the [SyntaxError] that [JSON.parse] throws. *)

Module JSON.

#[local] Unset Elimination Schemes.
Inductive value : Type :=
| JNull
| JBool (b : bool)
| JNumber (lexeme : string)
| JString (s : string)
| JArray (elements : list value)
| JObject (members : list (string * value)).
#[local] Set Elimination Schemes.

Definition dquote : ascii := ascii_of_nat 34.

(** The text of a string literal without escapes: [s] between quotes. *)
Definition quoted (s : string) : string :=
  String dquote (s +:+ String dquote EmptyString).

Definition is_ws (c : ascii) : bool :=
  let n := nat_of_ascii c in
  Nat.eqb n 32 || Nat.eqb n 9 || Nat.eqb n 10 || Nat.eqb n 13.

Fixpoint skip_ws (cs : list ascii) : list ascii :=
  match cs with
  | c :: cs' => if is_ws c then skip_ws cs' else cs
  | [] => []
  end.

Definition is_digit (c : ascii) : bool :=
  let n := nat_of_ascii c in Nat.leb 48 n && Nat.leb n 57.

Definition hex_digit (c : ascii) : option nat :=
  let n := nat_of_ascii c in
  if Nat.leb 48 n && Nat.leb n 57 then Some (n - 48)%nat
  else if Nat.leb 65 n && Nat.leb n 70 then Some (n - 55)%nat
  else if Nat.leb 97 n && Nat.leb n 102 then Some (n - 87)%nat
  else None.

(** The UTF-8 bytes of a code unit below 0x10000. *)
Definition utf8 (u : nat) : list ascii :=
  if Nat.ltb u 128 then [ascii_of_nat u]
  else if Nat.ltb u 2048 then
    [ascii_of_nat (192 + u / 64); ascii_of_nat (128 + u mod 64)]
  else
    [ascii_of_nat (224 + u / 4096); ascii_of_nat (128 + (u / 64) mod 64);
     ascii_of_nat (128 + u mod 64)].

(** The characters of a string literal after its opening quote. *)
Fixpoint parse_chars (cs : list ascii) (acc : list ascii)
    : option (list ascii * list ascii) :=
  match cs with
  | [] => None
  | c :: cs' =>
      if Ascii.eqb c dquote then Some (reverse acc, cs')
      else if Ascii.eqb c "\" then
        match cs' with
        | e :: cs'' =>
            if Ascii.eqb e "u" then
              match cs'' with
              | h1 :: h2 :: h3 :: h4 :: rest =>
                  match hex_digit h1, hex_digit h2, hex_digit h3, hex_digit h4 with
                  | Some a, Some b, Some c, Some d =>
                      parse_chars rest
                        (reverse (utf8 (((a * 16 + b) * 16 + c) * 16 + d)) ++ acc)
                  | _, _, _, _ => None
                  end
              | _ => None
              end
            else
              let simple (x : nat) := parse_chars cs'' (ascii_of_nat x :: acc) in
              if Ascii.eqb e dquote then simple 34%nat
              else if Ascii.eqb e "\" then simple 92%nat
              else if Ascii.eqb e "/" then simple 47%nat
              else if Ascii.eqb e "b" then simple 8%nat
              else if Ascii.eqb e "f" then simple 12%nat
              else if Ascii.eqb e "n" then simple 10%nat
              else if Ascii.eqb e "r" then simple 13%nat
              else if Ascii.eqb e "t" then simple 9%nat
              else None
        | [] => None
        end
      else if Nat.ltb (nat_of_ascii c) 32 then None
      else parse_chars cs' (c :: acc)
  end.

Fixpoint take_digits (cs : list ascii) : list ascii * list ascii :=
  match cs with
  | c :: cs' =>
      if is_digit c then let '(ds, rest) := take_digits cs' in (c :: ds, rest)
      else ([], cs)
  | [] => ([], [])
  end.

(** A number token: an optional minus sign, an integer part without a
    leading zero, an optional fraction, an optional exponent. *)
Definition parse_number (cs : list ascii) : option (list ascii * list ascii) :=
  let '(sign, cs1) :=
    match cs with
    | c :: cs' => if Ascii.eqb c "-" then ([c], cs') else ([], cs)
    | [] => ([], [])
    end in
  let '(int, cs2) := take_digits cs1 in
  match int with
  | [] => None
  | d :: ds =>
      if Ascii.eqb d "0" && negb (Nat.eqb (length ds) 0) then None
      else
        let frac :=
          match cs2 with
          | c :: cs' =>
              if Ascii.eqb c "." then
                let '(fs, rest) := take_digits cs' in
                match fs with [] => None | _ => Some (c :: fs, rest) end
              else Some ([], cs2)
          | [] => Some ([], [])
          end in
        '(fr, cs3) ← frac;
        let exp :=
          match cs3 with
          | c :: cs' =>
              if Ascii.eqb c "e" || Ascii.eqb c "E" then
                let '(sg, cs'') :=
                  match cs' with
                  | s :: r =>
                      if Ascii.eqb s "+" || Ascii.eqb s "-" then ([s], r)
                      else ([], cs')
                  | [] => ([], [])
                  end in
                let '(es, rest) := take_digits cs'' in
                match es with [] => None | _ => Some (c :: sg ++ es, rest) end
              else Some ([], cs3)
          | [] => Some ([], [])
          end in
        '(ex, cs4) ← exp;
        Some (sign ++ int ++ fr ++ ex, cs4)
  end.

Fixpoint expect (lit cs : list ascii) : option (list ascii) :=
  match lit, cs with
  | [], _ => Some cs
  | l :: lit', c :: cs' => if Ascii.eqb l c then expect lit' cs' else None
  | _ :: _, [] => None
  end.

(** [parse_value] reads one value, [parse_elements] the rest of an array
    after an element, [parse_members] the rest of an object after a
    member.  Every nested call uses one unit of fuel. *)
Fixpoint parse_value (fuel : nat) (cs : list ascii)
    : option (value * list ascii) :=
  match fuel with
  | O => None
  | S fuel =>
      match skip_ws cs with
      | [] => None
      | c :: cs' =>
          if Ascii.eqb c "n" then r ← expect (String.list_ascii_of_string "ull") cs'; Some (JNull, r)
          else if Ascii.eqb c "t" then r ← expect (String.list_ascii_of_string "rue") cs'; Some (JBool true, r)
          else if Ascii.eqb c "f" then r ← expect (String.list_ascii_of_string "alse") cs'; Some (JBool false, r)
          else if Ascii.eqb c dquote then
            '(s, r) ← parse_chars cs' []; Some (JString (String.string_of_list_ascii s), r)
          else if Ascii.eqb c "[" then
            match skip_ws cs' with
            | d :: r => if Ascii.eqb d "]" then Some (JArray [], r)
                        else '(v, r1) ← parse_value fuel cs';
                             '(vs, r2) ← parse_elements fuel r1;
                             Some (JArray (v :: vs), r2)
            | [] => None
            end
          else if Ascii.eqb c "{" then
            match skip_ws cs' with
            | d :: r => if Ascii.eqb d "}" then Some (JObject [], r)
                        else '(m, r1) ← parse_member fuel cs';
                             '(ms, r2) ← parse_members fuel r1;
                             Some (JObject (m :: ms), r2)
            | [] => None
            end
          else '(n, r) ← parse_number (c :: cs'); Some (JNumber (String.string_of_list_ascii n), r)
      end
  end
with parse_elements (fuel : nat) (cs : list ascii)
    : option (list value * list ascii) :=
  match fuel with
  | O => None
  | S fuel =>
      match skip_ws cs with
      | c :: cs' =>
          if Ascii.eqb c "]" then Some ([], cs')
          else if Ascii.eqb c "," then
            '(v, r1) ← parse_value fuel cs';
            '(vs, r2) ← parse_elements fuel r1;
            Some (v :: vs, r2)
          else None
      | [] => None
      end
  end
with parse_member (fuel : nat) (cs : list ascii)
    : option ((string * value) * list ascii) :=
  match fuel with
  | O => None
  | S fuel =>
      match skip_ws cs with
      | c :: cs' =>
          if Ascii.eqb c dquote then
            '(k, r1) ← parse_chars cs' [];
            match skip_ws r1 with
            | d :: r2 =>
                if Ascii.eqb d ":" then
                  '(v, r3) ← parse_value fuel r2;
                  Some ((String.string_of_list_ascii k, v), r3)
                else None
            | [] => None
            end
          else None
      | [] => None
      end
  end
with parse_members (fuel : nat) (cs : list ascii)
    : option (list (string * value) * list ascii) :=
  match fuel with
  | O => None
  | S fuel =>
      match skip_ws cs with
      | c :: cs' =>
          if Ascii.eqb c "}" then Some ([], cs')
          else if Ascii.eqb c "," then
            '(m, r1) ← parse_member fuel cs';
            '(ms, r2) ← parse_members fuel r1;
            Some (m :: ms, r2)
          else None
      | [] => None
      end
  end.

(** [JSON.parse(text)]: one value, with nothing but white space after
    it.  Each nested call consumes a character first, so the length of
    the text bounds the depth. *)
Definition parse (text : string) : option value :=
  let cs := String.list_ascii_of_string text in
  '(v, rest) ← parse_value (2 * length cs + 2) cs;
  match skip_ws rest with [] => Some v | _ :: _ => None end.

(** A plain object, the only JSON value usable as a mapping. *)
Definition is_mapping (v : value) : bool :=
  match v with JObject _ => true | _ => false end.

End JSON.

(** ** Items and day buckets (lines 248 and 662) *)

(** [{ id; title; link; createdAtMs; pending?: boolean }].  [createdAtMs]
    is a millisecond time stamp, an integer.  [pending] is optional in the
    source type: records built from server documents carry none until the
    merge normalizes them. *)
Record Item : Type := mkItem {
  id : string;
  title : string;
  link : string;
  createdAtMs : Z;
  pending : option bool
}.

Global Instance Item_eq_dec : EqDecision Item.
Proof. solve_decision. Defined.

(** [Record<string, Item[]>]: the object is used as a map from day key to
    bucket.  Day keys are calendar-date strings, never the name of a
    property of [Object.prototype]. *)
Abbreviation ItemsMap := (gmap string (list Item)).

(** [m[dateKey] || []]: an array, even an empty one, is truthy. *)
Definition bucket {A : Type} (m : gmap string (list A)) (dateKey : string) : list A :=
  default [] (m !! dateKey).

(** The comparator of both sorts: [(a.createdAtMs || 0) - (b.createdAtMs || 0)]. *)
Definition byCreatedAt (a b : Item) : Z :=
  (JS.or_zero (createdAtMs a) - JS.or_zero (createdAtMs b))%Z.

(** [{ ...it, id: newId, pending: false }]. *)
Definition confirmed_as (newId : string) (it : Item) : Item :=
  {| id := newId; title := title it; link := link it;
     createdAtMs := createdAtMs it; pending := Some false |}.

(** [{ ...s, pending: false }]. *)
Definition not_pending (s : Item) : Item :=
  {| id := id s; title := title s; link := link s;
     createdAtMs := createdAtMs s; pending := Some false |}.

(** [`${s.title}::${s.createdAtMs}`], the duplicate-suppression key. *)
Definition dupKey (s : Item) : string :=
  title s +:+ "::" +:+ JS.String_of_number (createdAtMs s).

(** ** The merge step of [fetchVisibleDays] (lines 298-316 and 713-735)

    The two Firestore variants differ only in the test that selects the
    local items of the current bucket. *)
Section Merge.
Variable keepLocal : Item → bool.

(** The body of [for (const dk of visibleDates)], up to line 309: the
    normalized server records followed by the local items that no server
    record duplicates. *)
Definition mergeCandidates (current serverArr : list Item) : list Item :=
  let localArr := filter (λ i, keepLocal i) current in
  let serverKeys : gset string := list_to_set (dupKey <$> serverArr) in
  let filteredLocal := filter (λ l, dupKey l ∉ serverKeys) localArr in
  let normalizedServer := not_pending <$> serverArr in
  normalizedServer ++ filteredLocal.

(** Lines 309-312: [merged.sort(...)], the bucket assigned to the day. *)
Definition mergeDay (current serverArr : list Item) : list Item :=
  JS.Array_sort byCreatedAt (mergeCandidates current serverArr).

(** The updater passed to [setItemsMap]: [newMap] starts as a copy of
    [prev] and the loop assigns the merged bucket of each visible day. *)
Definition mergeVisible (visibleDates : list string)
    (fromServer prev : ItemsMap) : ItemsMap :=
  foldl (λ newMap dk,
           <[dk := mergeDay (bucket newMap dk) (bucket fromServer dk)]> newMap)
        prev visibleDates.
End Merge.

(** ** Updaters shared by the Firestore variants *)

(** The promotion updater of [addItem] (lines 404-407, 782-785) and of
    [uploadPending] (lines 352-355). *)
Definition promote (dateKey localId newId : string) (prev : ItemsMap) : ItemsMap :=
  let arr := (λ it, if decide (id it = localId) then confirmed_as newId it else it)
               <$> bucket prev dateKey in
  <[dateKey := arr]> prev.

(** The optimistic insert of [addItem] (lines 386-391, 763-768). *)
Definition insertLocal (dateKey : string) (localRec : Item) (prev : ItemsMap) : ItemsMap :=
  let arr := bucket prev dateKey ++ [localRec] in
  <[dateKey := JS.Array_sort byCreatedAt arr]> prev.

(** [{ id: localId, title, link, createdAtMs, pending: true }] where
    [localId = "local-" + Math.random().toString(36).slice(2)]; the random
    suffix and the clock reading are inputs. *)
Definition localRec (suffix title link : string) (now : Z) : Item :=
  {| id := "local-" +:+ suffix; title := title; link := link;
     createdAtMs := now; pending := Some true |}.

(** [it.id && String(it.id).startsWith("local-")]. *)
Definition isLocalId (i : string) : bool :=
  negb (String.eqb i EmptyString) && JS.startsWith i "local-".

(** [addItem] (lines 381-411, 758-790), from the state before the call to
    the state after [addDoc], if called, has settled: [created] is the
    identity of the new document, [None] when the call is rejected. *)
Definition addItem (db : bool) (created : option string)
    (dateKey title link suffix : string) (now : Z) (prev : ItemsMap) : ItemsMap :=
  let localRec := localRec suffix title link now in
  let next := insertLocal dateKey localRec prev in
  if db then
    match created with
    | Some newId => promote dateKey (id localRec) newId next
    | None => next
    end
  else next.

(** ** The collaborators: local storage and the Firestore collection *)

(** [localStorage]: access may be denied (every call throws), else it is a
    string-keyed store of strings. *)
Inductive Storage : Type :=
| StorageDenied
| StorageOf (entries : gmap string string).

(** [localStorage.getItem(key)]: [None] when the call throws, else the
    stored text or [null]. *)
Definition getItem (st : Storage) (key : string) : option (option string) :=
  match st with
  | StorageDenied => None
  | StorageOf entries => Some (entries !! key)
  end.

(** The body shared by [readLocalStorageItems] (lines 225-232, 639-646)
    and the [itemsMap] initializer of lines 38-45:
    [try { const raw = getItem(key); return raw ? JSON.parse(raw) : {} }
     catch (e) { return {} }]. *)
Definition readItems (key : string) (st : Storage) : JSON.value :=
  match getItem st key with
  | None => JSON.JObject []
  | Some None => JSON.JObject []
  | Some (Some raw) =>
      if String.eqb raw EmptyString then JSON.JObject []
      else match JSON.parse raw with
           | Some v => v
           | None => JSON.JObject []
           end
  end.

(** A document of the [items] collection: [doc.id] and the fields of
    [doc.data()].  A missing string field reads as the empty string (both
    are falsy); [data_createdAtMs] is [None] when the field is no number. *)
Record Doc : Type := mkDoc {
  doc_id : string;
  data_title : string;
  data_link : string;
  data_dateKey : string;
  data_createdAtMs : option Z
}.

(** How [await getDocs(q)] settles. *)
Inductive QueryResult : Type :=
| QueryRejected
| QuerySnapshot (docs : list Doc).

(** How [await deleteDoc(...)] settles. *)
Inductive RemoteOutcome : Type := Resolved | Rejected.

(** The shape written to local storage:
    [{ id: it.id, title: it.title, link: it.link, createdAtMs: it.createdAtMs }]. *)
Record StoredItem : Type := mkStored {
  stored_id : string;
  stored_title : string;
  stored_link : string;
  stored_createdAtMs : Z
}.

Definition stored_of (it : Item) : StoredItem :=
  {| stored_id := id it; stored_title := title it; stored_link := link it;
     stored_createdAtMs := createdAtMs it |}.

(** ** Variant 1: the local-only calendar (lines 1-145) *)

Module V1.

Definition STORAGE_KEY : string := "infinite-calendar-items-v1".
Definition MS_PER_DAY : Z := 24 * 60 * 60 * 1000.
Definition VISIBLE_DAYS : nat := 7.

Record Item : Type := mkItem { id : string; title : string; link : string }.

(** [formatDateKey] (lines 11-13): [d.toISOString().slice(0, 10)]. *)
Definition formatDateKey (d : JSDate.Date) : option string :=
  String.substring 0 10 <$> JSDate.toISOString d.

(** [makeDateBefore] (lines 19-21). *)
Definition makeDateBefore (base : JSDate.Date) (daysBefore : Z) : JSDate.Date :=
  JSDate.Date_of_value ((λ t, t - daysBefore * MS_PER_DAY)%Z <$> JSDate.getTime base).

(** The [visibleDates] initializer (lines 28-35) for a window of [n]
    days; [None] when [toISOString] throws. *)
Definition visibleDates_of (n : nat) (now : Z) : option (list string) :=
  mapM (λ i : nat, formatDateKey (makeDateBefore (Some now) (Z.of_nat i))) (seq 0 n).

Definition visibleDates_init (now : Z) : option (list string) :=
  visibleDates_of VISIBLE_DAYS now.

(** The [itemsMap] initializer (lines 38-45). *)
Definition itemsMap_init (st : Storage) : JSON.value := readItems STORAGE_KEY st.

(** [addItem] (lines 51-57); the random identity is an input. *)
Definition addItem (dateKey title link random : string)
    (prev : gmap string (list Item)) : gmap string (list Item) :=
  let arr := bucket prev dateKey ++ [{| id := random; title := title; link := link |}] in
  <[dateKey := arr]> prev.

(** [removeItem] (lines 59-64). *)
Definition removeItem (dateKey id0 : string)
    (prev : gmap string (list Item)) : gmap string (list Item) :=
  let arr := filter (λ it, id it ≠ id0) (bucket prev dateKey) in
  <[dateKey := arr]> prev.

End V1.

(** ** Variant 2: Firestore, local-date keys, upload sweep, [deleteItem]
       (lines 146-575) *)

Module V2.

Definition STORAGE_KEY : string := "cv-calendar-items".
Definition VISIBLE_DAYS : nat := 7.

(** [pad] (lines 166-168). *)
Definition pad (n : option Z) : string :=
  JSDate.padStart0 2 (JSDate.String_of n).

(** [formatDateKey] (lines 171-173): the local fields of the date. *)
Definition formatDateKey (tz : JSDate.TimeZone) (d : JSDate.Date) : string :=
  JSDate.String_of (JSDate.getFullYear tz d)
  +:+ "-" +:+ pad ((λ m, m + 1)%Z <$> JSDate.getMonth tz d)
  +:+ "-" +:+ pad (JSDate.getDate tz d).

(** The key of a calendar date; for a date read off a valid [Date] this is
    what [formatDateKey] builds. *)
Definition dateKeyOf (ymd : Z * Z * Z) : string :=
  let '(y, m, dt) := ymd in
  JS.String_of_number y +:+ "-" +:+ pad (Some m) +:+ "-" +:+ pad (Some dt).

(** [localMidnight] (lines 186-188). *)
Definition localMidnight (tz : JSDate.TimeZone) (date : JSDate.Date) : JSDate.Date :=
  JSDate.Date_of_ymd tz (JSDate.getFullYear tz date) (JSDate.getMonth tz date)
    (JSDate.getDate tz date).

(** The [visibleDates] initializer (lines 235-245) for a window of [n]
    days, [now] being the time value of [new Date()]. *)
Definition visibleDates_of (tz : JSDate.TimeZone) (n : nat) (now : Z) : list string :=
  let baseLocalMidnight := localMidnight tz (Some now) in
  (λ i : nat,
     let d := JSDate.Date_of_ymd tz
                (JSDate.getFullYear tz baseLocalMidnight)
                (JSDate.getMonth tz baseLocalMidnight)
                ((λ dt, dt - Z.of_nat i)%Z <$> JSDate.getDate tz baseLocalMidnight) in
     formatDateKey tz d) <$> seq 0 n.

Definition visibleDates_init (tz : JSDate.TimeZone) (now : Z) : list string :=
  visibleDates_of tz VISIBLE_DAYS now.

(** [readLocalStorageItems] (lines 225-232). *)
Definition readLocalStorageItems (st : Storage) : JSON.value :=
  readItems STORAGE_KEY st.

(** Line 301: [i.id && String(i.id).startsWith("local-")]. *)
Definition keepLocal (i : Item) : bool := isLocalId (id i).

(** [snap.forEach] (lines 284-296); [now] is the reading of
    [Date.now()]. *)
Definition groupDocs (tz : JSDate.TimeZone) (now : Z) (docs : list Doc) : ItemsMap :=
  foldl (λ fromServer doc,
           let dateKey :=
             JS.or_string (data_dateKey doc)
               (formatDateKey tz (JSDate.Date_of_value
                  (Some (from_option (λ c, if decide (c = 0%Z) then now else c)
                                     now (data_createdAtMs doc))))) in
           let rec :=
             {| id := doc_id doc;
                title := JS.or_string (data_title doc) EmptyString;
                link := JS.or_string (data_link doc) EmptyString;
                createdAtMs := default now (data_createdAtMs doc);
                pending := None |} in
           <[dateKey := bucket fromServer dateKey ++ [rec]]> fromServer)
        ∅ docs.

(** The [setItemsMap] updater of [fetchVisibleDays] (lines 298-316). *)
Definition merge (visibleDates : list string) (fromServer prev : ItemsMap) : ItemsMap :=
  mergeVisible keepLocal visibleDates fromServer prev.

(** One run of [fetchVisibleDays] (lines 272-323), from the state before
    it to the state after the query has settled: nothing happens without
    [db] or when the query is rejected. *)
Definition fetchVisibleDays (tz : JSDate.TimeZone) (now : Z)
    (visibleDates : list string) (db : bool) (res : QueryResult)
    (prev : ItemsMap) : ItemsMap :=
  if db then
    match res with
    | QueryRejected => prev
    | QuerySnapshot docs => merge visibleDates (groupDocs tz now docs) prev
    end
  else prev.

(** The scan of [uploadPending] (lines 330-337): every item with a local
    identity, with its day.  (The order of [Object.keys] is not kept.) *)
Definition pendingEntries (m : ItemsMap) : list (string * Item) :=
  '(dk, arr) ← map_to_list m;
  it ← arr;
  if isLocalId (id it) then [(dk, it)] else [].

(** The updater used three times in [deleteItem] (lines 418-423). *)
Definition removeLocal (dateKey id0 : string) (prev : ItemsMap) : ItemsMap :=
  let arr := filter (λ it, id it ≠ id0) (bucket prev dateKey) in
  if decide (0 < length arr)%nat then <[dateKey := arr]> prev
  else delete dateKey prev.

(** Whether [deleteItem] calls [deleteDoc]. *)
Definition deleteItem_calls_remote (db : bool) (id0 : string) : bool :=
  negb (String.eqb id0 EmptyString) && negb (JS.startsWith id0 "local-") && db.

(** [deleteItem] (lines 414-447), from the state before the call to the
    state after [deleteDoc], if called, has settled as [remote]. *)
Definition deleteItem (db : bool) (remote : RemoteOutcome)
    (dateKey id0 : string) (prev : ItemsMap) : ItemsMap :=
  if String.eqb id0 EmptyString then prev
  else if JS.startsWith id0 "local-" then removeLocal dateKey id0 prev
  else if db then
    match remote with
    | Resolved => removeLocal dateKey id0 prev
    | Rejected => prev
    end
  else removeLocal dateKey id0 prev.

(** The object handed to [localStorage.setItem] (lines 366-379): days
    with zero items are skipped. *)
Definition toSave (m : ItemsMap) : gmap string (list StoredItem) :=
  (λ arr : list Item, stored_of <$> arr) <$>
    filter (λ kv : string * list Item, (0 < length kv.2)%nat) m.

(** *** The component as a state machine

    [itemsMapRef] is the identity of the object held in the [itemsMap]
    state: every [setItemsMap] updater of the source returns a fresh
    object.  [sweepCreates] logs the [addDoc] calls of [uploadPending]. *)
Record AppState : Type := mkState {
  db : bool;
  itemsMap : ItemsMap;
  itemsMapRef : nat;
  sweepCreates : list (string * Item)
}.

Definition setItemsMap (f : ItemsMap → ItemsMap) (s : AppState) : AppState :=
  {| db := db s; itemsMap := f (itemsMap s); itemsMapRef := S (itemsMapRef s);
     sweepCreates := sweepCreates s |}.

Inductive Event : Type :=
| SetDb (firestore : bool)
    (** [setDb(initFirebase())], line 268: a handle, or [null] *)
| FetchSettled (now : Z) (res : QueryResult)
    (** the query of [fetchVisibleDays] settles *)
| AddItem (dateKey title link suffix : string) (now : Z)
    (** the synchronous part of [addItem] *)
| CreateResolved (dateKey localId newId : string)
    (** an [addDoc] promise resolves: the promotion updater runs *)
| DeleteItem (remote : RemoteOutcome) (dateKey id0 : string).

Section Machine.
Variable tz : JSDate.TimeZone.
Variable visibleDates : list string.

Definition update (ev : Event) (s : AppState) : AppState :=
  match ev with
  | SetDb firestore =>
      {| db := firestore; itemsMap := itemsMap s;
         itemsMapRef := itemsMapRef s; sweepCreates := sweepCreates s |}
  | FetchSettled now res =>
      if db s then
        match res with
        | QueryRejected => s
        | QuerySnapshot docs =>
            setItemsMap (merge visibleDates (groupDocs tz now docs)) s
        end
      else s
  | AddItem dateKey title link suffix now =>
      setItemsMap (insertLocal dateKey (localRec suffix title link now)) s
  | CreateResolved dateKey localId newId =>
      setItemsMap (promote dateKey localId newId) s
  | DeleteItem remote dateKey id0 =>
      if String.eqb id0 EmptyString then s
      else if deleteItem_calls_remote (db s) id0 then
        match remote with
        | Resolved => setItemsMap (removeLocal dateKey id0) s
        | Rejected => s
        end
      else setItemsMap (removeLocal dateKey id0) s
  end.

(** The effect of lines 326-363, [useEffect(..., [db, itemsMap])]:
    without [db] it returns at once, else it calls [addDoc] for every
    pending entry of the [itemsMap] it closed over. *)
Definition uploadPending (s : AppState) : AppState :=
  if db s then
    {| db := db s; itemsMap := itemsMap s; itemsMapRef := itemsMapRef s;
       sweepCreates := sweepCreates s ++ pendingEntries (itemsMap s) |}
  else s.

(** React runs an effect after a render in which one of its
    dependencies is not the value ([Object.is]) of the render before. *)
Definition step (s : AppState) (ev : Event) : AppState :=
  let s' := update ev s in
  if negb (Bool.eqb (db s) (db s')) || negb (Nat.eqb (itemsMapRef s) (itemsMapRef s'))
  then uploadPending s'
  else s'.

Definition run (s : AppState) (evs : list Event) : AppState :=
  foldl step s evs.
End Machine.

(** The state after the first render, [db] still [null]. *)
Definition mounted (m : ItemsMap) : AppState :=
  {| db := false; itemsMap := m; itemsMapRef := 0; sweepCreates := [] |}.

(** How many times the sweep has called [addDoc] for an entry. *)
Definition sweep_attempts (entry : string * Item) (s : AppState) : nat :=
  length (filter (λ e, e = entry) (sweepCreates s)).

(** Availability transitions of a trace: [db] going from [null] to a
    handle. *)
Fixpoint availability_transitions (db0 : bool) (evs : list Event) : nat :=
  match evs with
  | [] => 0
  | SetDb firestore :: evs' =>
      (if negb db0 && firestore then 1 else 0) + availability_transitions firestore evs'
  | _ :: evs' => availability_transitions db0 evs'
  end.

(** *** The rest of the second variant *)

(** An item as [JSON.parse] hands it to the [itemsMap] initializer, read at
    the type the component saves: each field may be missing ([None]). *)
Record RawItem : Type := mkRaw {
  raw_id : option string;
  raw_title : option string;
  raw_link : option string;
  raw_createdAtMs : option Z
}.

(** The [itemsMap] initializer (lines 248-261, and 662-676), on a stored
    object of that type.  [random dk i] is the suffix [Math.random()]
    yields for item [i] of day [dk], [now] the reading of [Date.now()].
    [it.id || ...] replaces a missing or empty identity, [it.createdAtMs
    || ...] a missing or zero time stamp; [pending] is
    [typeof it.id === "string" && it.id.startsWith("local-")], computed
    from the stored identity. *)
Definition itemsMap_init (random : string → nat → string) (now : Z)
    (raw : gmap string (list RawItem)) : ItemsMap :=
  map_imap (λ dk arr,
      Some (imap (λ i it,
        {| id := match raw_id it with
                 | Some s => if String.eqb s EmptyString
                             then "local-" +:+ random dk i else s
                 | None => "local-" +:+ random dk i
                 end;
           title := JS.or_string (default EmptyString (raw_title it)) EmptyString;
           link := JS.or_string (default EmptyString (raw_link it)) EmptyString;
           createdAtMs := match raw_createdAtMs it with
                          | Some c => if decide (c = 0%Z) then now else c
                          | None => now
                          end;
           pending := Some (from_option (λ s, JS.startsWith s "local-") false
                                        (raw_id it)) |}) arr)) raw.

(** What [JSON.parse] returns for the text [JSON.stringify] wrote from the
    saved object: every field present, strings and integer time stamps as
    they were. *)
Definition raw_of_saved (saved : gmap string (list StoredItem))
    : gmap string (list RawItem) :=
  (λ arr : list StoredItem,
     (λ it, {| raw_id := Some (stored_id it); raw_title := Some (stored_title it);
               raw_link := Some (stored_link it);
               raw_createdAtMs := Some (stored_createdAtMs it) |}) <$> arr) <$> saved.

(** The record [snap.forEach] builds from a document (lines 288-293). *)
Definition serverRec (now : Z) (doc : Doc) : Item :=
  {| id := doc_id doc;
     title := JS.or_string (data_title doc) EmptyString;
     link := JS.or_string (data_link doc) EmptyString;
     createdAtMs := default now (data_createdAtMs doc);
     pending := None |}.

(** The [setItemsMap] updater of [clearLocalStorageDebug] (lines 467-474):
    a new object with, for each day, the items that have no local
    identity, when there are any. *)
Definition clearLocalStorageDebug (prev : ItemsMap) : ItemsMap :=
  omap (λ arr : list Item,
          let filtered := filter (λ it, ¬ isLocalId (id it)) arr in
          if decide (0 < length filtered)%nat then Some filtered else None) prev.

(** The loop of [uploadPending] (lines 341-359) when every [addDoc]
    resolves: one promotion per entry, [newId dk localId] being the
    identity of the document created for it. *)
Definition uploadAllResolved (newId : string → string → string)
    (entries : list (string * Item)) (m : ItemsMap) : ItemsMap :=
  foldl (λ m entry, promote entry.1 (id entry.2) (newId entry.1 (id entry.2)) m)
        m entries.

End V2.

(** ** Variant 3: Firestore, UTC keys, [removeItem] (lines 576-906) *)

Module V3.

Definition STORAGE_KEY : string := "infinite-calendar-items-v1".
Definition MS_PER_DAY : Z := 24 * 60 * 60 * 1000.
Definition VISIBLE_DAYS : nat := 7.

(** [formatDateKey] (lines 592-594): [d.toISOString().slice(0, 10)];
    [None] when [toISOString] throws. *)
Definition formatDateKey (d : JSDate.Date) : option string :=
  String.substring 0 10 <$> JSDate.toISOString d.

(** [makeDateBefore] (lines 600-602). *)
Definition makeDateBefore (base : JSDate.Date) (daysBefore : Z) : JSDate.Date :=
  JSDate.Date_of_value ((λ t, t - daysBefore * MS_PER_DAY)%Z <$> JSDate.getTime base).

(** The [visibleDates] initializer (lines 649-659) for a window of [n]
    days, [now] being the time value of [new Date()]. *)
Definition visibleDates_of (n : nat) (now : Z) : option (list string) :=
  mapM (λ i : nat, formatDateKey (makeDateBefore (Some now) (Z.of_nat i))) (seq 0 n).

Definition visibleDates_init (now : Z) : option (list string) :=
  visibleDates_of VISIBLE_DAYS now.

(** [readLocalStorageItems] (lines 639-646). *)
Definition readLocalStorageItems (st : Storage) : JSON.value :=
  readItems STORAGE_KEY st.

(** Line 717:
    [!(i.id && !i.id.startsWith("local-")) || i.id.startsWith("local-")]. *)
Definition keepLocal (i : Item) : bool :=
  negb (negb (String.eqb (id i) EmptyString) && negb (JS.startsWith (id i) "local-"))
  || JS.startsWith (id i) "local-".

(** The [setItemsMap] updater of [fetchVisibleDays] (lines 713-735). *)
Definition merge (visibleDates : list string) (fromServer prev : ItemsMap) : ItemsMap :=
  mergeVisible keepLocal visibleDates fromServer prev.

(** [removeItem] (lines 792-797). *)
Definition removeItem (dateKey id0 : string) (prev : ItemsMap) : ItemsMap :=
  let arr := filter (λ it, id it ≠ id0) (bucket prev dateKey) in
  <[dateKey := arr]> prev.

(** The object handed to [localStorage.setItem] (lines 745-756). *)
Definition toSave (m : ItemsMap) : gmap string (list StoredItem) :=
  (λ arr : list Item, stored_of <$> arr) <$> m.

End V3.

(** Non-decreasing [createdAtMs], stated on positions. *)
Definition ordered (l : list Item) : Prop :=
  ∀ (i j : nat) a b, l !! i = Some a → l !! j = Some b → (i ≤ j)%nat →
    (createdAtMs a ≤ createdAtMs b)%Z.

(** [l] holds the items of [l0], and items with equal [createdAtMs] are in
    the order they have in [l0]. *)
Definition keeps_ties_of (l0 l : list Item) : Prop :=
  l ≡ₚ l0 ∧
  ∀ k, filter (λ a, createdAtMs a = k) l = filter (λ a, createdAtMs a = k) l0.

(** Rewriting [bucket] through the updaters, with the lemmas of the
    [bucket] database, and settling the tests on the day key. *)
Create Rewrite HintDb bucket.

Ltac bucket_simpl :=
  autorewrite with bucket;
  repeat first [ rewrite decide_True by done | rewrite decide_False by done ].

(** The character [:], twice the separator of the duplicate key. *)
Definition colon : ascii := ascii_of_nat 58.

(* ================================================================== *)
(** * Theorems *)

(** ** The stable sort *)

Section Array_sort_facts.
Context {A : Type} (key : A → Z) (compareFn : A → A → Z).
Hypothesis compareFn_key : ∀ a b, compareFn a b = (key a - key b)%Z.

Local Abbreviation le_key := (λ a b : A, (key a ≤ key b)%Z).
Local Abbreviation isort := (JS.Array_sort compareFn).
Local Abbreviation ins := (JS.sort_insert compareFn).

Lemma sort_insert_Permutation x l : ins x l ≡ₚ x :: l.
Proof.
  induction l as [|y l IH]; simpl; [done|].
  case_decide; [|done].
  rewrite IH. apply Permutation_swap.
Qed.

Lemma Array_sort_Permutation l : isort l ≡ₚ l.
Proof.
  induction l as [|x l IH]; simpl; [done|].
  by rewrite sort_insert_Permutation, IH.
Qed.

Lemma sort_insert_min x l :
  Forall (λ y, (key x ≤ key y)%Z) l → ins x l = x :: l.
Proof.
  destruct l as [|y l]; simpl; [done|].
  intros Hall. apply Forall_cons in Hall as [Hy _].
  rewrite compareFn_key. case_decide; [lia|done].
Qed.

Lemma sort_insert_sorted x l :
  StronglySorted le_key l → StronglySorted le_key (ins x l).
Proof.
  induction 1 as [|y l Hs IH Hall]; simpl.
  - repeat constructor.
  - rewrite compareFn_key. case_decide as Hlt.
    + constructor; [done|].
      rewrite sort_insert_Permutation. constructor; [lia|done].
    + constructor; [by constructor|].
      constructor; [lia|].
      eapply Forall_impl; [exact Hall|]. simpl. intros; lia.
Qed.

Lemma Array_sort_sorted l : StronglySorted le_key (isort l).
Proof.
  induction l as [|x l IH]; simpl; [constructor|].
  by apply sort_insert_sorted.
Qed.

Lemma Array_sort_of_sorted l : StronglySorted le_key l → isort l = l.
Proof.
  induction 1 as [|x l Hs IH Hall]; simpl; [done|].
  rewrite IH. by apply sort_insert_min.
Qed.

Lemma Array_sort_idemp l : isort (isort l) = isort l.
Proof. apply Array_sort_of_sorted, Array_sort_sorted. Qed.

Lemma Array_sort_app_sorted_r l1 l2 : isort (l1 ++ isort l2) = isort (l1 ++ l2).
Proof.
  induction l1 as [|x l1 IH]; simpl; [apply Array_sort_idemp|].
  by rewrite IH.
Qed.

Section with_filter.
Context (P : A → Prop) `{!∀ a, Decision (P a)}.

Lemma filter_sort_insert x l :
  StronglySorted le_key l →
  filter P (ins x l) =
    if decide (P x) then ins x (filter P l) else filter P l.
Proof.
  induction 1 as [|y l Hs IH Hall]; cbn [JS.sort_insert].
  - rewrite filter_cons, filter_nil. by destruct (decide (P x)).
  - destruct (decide (0 < compareFn x y)%Z) as [Hlt|Hlt].
    + rewrite !filter_cons, IH.
      destruct (decide (P x)), (decide (P y)); cbn [JS.sort_insert]; try done.
      by rewrite decide_True by done.
    + rewrite !filter_cons.
      destruct (decide (P x)) as [Hx|Hx]; [|done].
      symmetry. destruct (decide (P y)); cbn [JS.sort_insert].
      * by rewrite decide_False by done.
      * apply sort_insert_min.
        apply Forall_forall. intros z Hz.
        apply list_elem_of_filter in Hz as [_ Hz].
        rewrite Forall_forall in Hall. specialize (Hall z Hz).
        rewrite compareFn_key in Hlt. simpl in Hall. lia.
Qed.

Lemma filter_Array_sort l : filter P (isort l) = isort (filter P l).
Proof.
  induction l as [|x l IH]; [done|].
  change (isort (x :: l)) with (ins x (isort l)).
  rewrite filter_sort_insert by apply Array_sort_sorted.
  rewrite filter_cons, IH. by case_decide.
Qed.
End with_filter.

(** Stability: the items of one key keep their relative order. *)
Lemma Array_sort_stable l k :
  filter (λ a, key a = k) (isort l) = filter (λ a, key a = k) l.
Proof.
  rewrite filter_Array_sort. apply Array_sort_of_sorted.
  induction l as [|x l IH]; [rewrite filter_nil; constructor|].
  rewrite filter_cons. case_decide as Hk; [|done].
  constructor; [done|].
  apply Forall_forall. intros z Hz.
  apply list_elem_of_filter in Hz as [Hz _]. lia.
Qed.

(** A sorted list is determined by its per-key sublists, so every stable
    sort computes [Array_sort]. *)
Lemma sorted_stable_eq l1 l2 :
  StronglySorted le_key l1 → StronglySorted le_key l2 →
  (∀ k, filter (λ a, key a = k) l1 = filter (λ a, key a = k) l2) →
  l1 = l2.
Proof.
  intros Hs1. revert l2.
  induction Hs1 as [|x l1 Hs1 IH Hall1]; intros l2 Hs2 Hf.
  - destruct l2 as [|y l2]; [done|].
    specialize (Hf (key y)). rewrite filter_nil, filter_cons in Hf.
    by rewrite decide_True in Hf by done.
  - destruct Hs2 as [|y l2 Hs2 Hall2].
    + specialize (Hf (key x)). rewrite filter_nil, filter_cons in Hf.
      by rewrite decide_True in Hf by done.
    + assert (key x = key y) as Hxy.
      { assert (key x ≤ key y)%Z.
        { pose proof (Hf (key y)) as Hy. rewrite !filter_cons in Hy.
          rewrite (decide_True (P := key y = key y)) in Hy by done.
          case_decide; [lia|].
          assert (y ∈ filter (λ a, key a = key y) l1) as Hin
            by (rewrite Hy; left).
          apply list_elem_of_filter in Hin as [_ Hin].
          rewrite Forall_forall in Hall1. by apply Hall1. }
        assert (key y ≤ key x)%Z.
        { pose proof (Hf (key x)) as Hx. rewrite !filter_cons in Hx.
          rewrite (decide_True (P := key x = key x)) in Hx by done.
          case_decide; [lia|].
          assert (x ∈ filter (λ a, key a = key x) l2) as Hin
            by (rewrite <- Hx; left).
          apply list_elem_of_filter in Hin as [_ Hin].
          rewrite Forall_forall in Hall2. by apply Hall2. }
        lia. }
      pose proof (Hf (key x)) as Hx. rewrite !filter_cons in Hx.
      rewrite decide_True in Hx by done.
      rewrite decide_True in Hx by done.
      injection Hx as -> Hx. f_equal.
      apply IH; [done|]. intros k. specialize (Hf k).
      rewrite !filter_cons in Hf. case_decide; [|done]. by injection Hf.
Qed.

Lemma stable_sort_unique l l' :
  StronglySorted le_key l' →
  (∀ k, filter (λ a, key a = k) l' = filter (λ a, key a = k) l) →
  l' = isort l.
Proof.
  intros Hs Hf. apply sorted_stable_eq; [done|apply Array_sort_sorted|].
  intros k. by rewrite Array_sort_stable.
Qed.
End Array_sort_facts.

(** ** Calendar arithmetic *)

Section Date_facts.
Import JSDate.
Local Open Scope Z_scope.

Lemma YearFromDay_spec d :
  DayFromYear (YearFromDay d) <= d < DayFromYear (YearFromDay d + 1).
Proof.
  unfold YearFromDay.
  assert (DayFromYear (1970 + 400 * d / 146097 - 1) <= d
          < DayFromYear (1970 + 400 * d / 146097 + 2)) as H
    by (unfold DayFromYear; Z.div_mod_to_equations; lia).
  revert H. generalize (1970 + 400 * d / 146097). intros y0 H.
  destruct (Z.leb_spec (DayFromYear (y0 + 1)) d).
  - replace (y0 + 1 + 1) with (y0 + 2) by lia. lia.
  - destruct (Z.leb_spec (DayFromYear y0) d); [lia|].
    replace (y0 - 1 + 1) with y0 by lia. lia.
Qed.

Lemma DayFromYear_succ y : DayFromYear (y + 1) = DayFromYear y + 365 + leapDays y.
Proof.
  unfold leapDays, DaysInYear.
  destruct (Z.eqb_spec (y mod 4) 0) as [H4|H4]; cbn [negb];
    [destruct (Z.eqb_spec (y mod 100) 0) as [H100|H100]; cbn [negb];
       [destruct (Z.eqb_spec (y mod 400) 0) as [H400|H400]; cbn [negb]|]|];
    match goal with
    | |- context [if ?a =? ?b then _ else _] =>
        change (a =? b) with false || change (a =? b) with true
    end;
    unfold DayFromYear; revert H4; try revert H100; try revert H400;
    Z.div_mod_to_equations; lia.
Qed.

Lemma leapDays_range y : 0 <= leapDays y <= 1.
Proof. unfold leapDays. destruct (_ =? _); lia. Qed.

Lemma Day_MakeDate d : Day (MakeDate d 0) = d.
Proof. unfold Day, MakeDate, msPerDay. Z.div_mod_to_equations. lia. Qed.

Lemma DayWithinYear_range t : 0 <= DayWithinYear t < 365 + InLeapYear t.
Proof.
  unfold DayWithinYear, InLeapYear, YearFromTime.
  pose proof (YearFromDay_spec (Day t)) as H.
  rewrite DayFromYear_succ in H. lia.
Qed.

Lemma monthOfDayWithinYear_range leap dwy :
  0 <= monthOfDayWithinYear leap dwy <= 11.
Proof.
  unfold monthOfDayWithinYear.
  repeat match goal with
         | |- context [Z.ltb ?a ?b] => destruct (Z.ltb_spec a b)
         end; lia.
Qed.

Lemma DateFromTime_range t : 1 <= DateFromTime t <= 31.
Proof.
  unfold DateFromTime, MonthFromTime.
  pose proof (DayWithinYear_range t) as Hd.
  pose proof (leapDays_range (YearFromTime t)) as Hl.
  fold (InLeapYear t) in Hl.
  unfold monthOfDayWithinYear.
  repeat match goal with
         | |- context [Z.ltb ?a ?b] => destruct (Z.ltb_spec a b)
         end; simpl; lia.
Qed.

(** [MakeDay] undoes the split of a day into year, month and date, and
    lets a date below 1 run into the months before. *)
Lemma MakeDay_fields t i :
  MakeDay (YearFromTime t) (MonthFromTime t) (DateFromTime t - i) = Day t - i.
Proof.
  unfold MakeDay.
  pose proof (monthOfDayWithinYear_range (InLeapYear t) (DayWithinYear t)) as Hm.
  fold (MonthFromTime t) in Hm.
  replace (MonthFromTime t / 12) with 0 by (Z.div_mod_to_equations; lia).
  replace (MonthFromTime t mod 12) with (MonthFromTime t)
    by (Z.div_mod_to_equations; lia).
  rewrite Z.add_0_r. fold (InLeapYear t).
  unfold DateFromTime, DayWithinYear. lia.
Qed.

Lemma calendarDate_of_time t :
  (YearFromTime t, MonthFromTime t + 1, DateFromTime t) = calendarDate (Day t).
Proof.
  unfold calendarDate, DateFromTime, MonthFromTime, InLeapYear, DayWithinYear,
    YearFromTime.
  by rewrite Day_MakeDate.
Qed.

Lemma calendarDate_inj d1 d2 : calendarDate d1 = calendarDate d2 → d1 = d2.
Proof.
  unfold calendarDate. intros H.
  pose proof (MakeDay_fields (MakeDate d1 0) 0) as H1.
  pose proof (MakeDay_fields (MakeDate d2 0) 0) as H2.
  rewrite Day_MakeDate in H1, H2.
  injection H as Hy Hm Hd.
  assert (MonthFromTime (MakeDate d1 0) = MonthFromTime (MakeDate d2 0)) as Hm' by lia.
  rewrite Hy, Hm', Hd in H1. lia.
Qed.

Lemma calendarDate_range d :
  1 <= (calendarDate d).1.2 <= 12 ∧ 1 <= (calendarDate d).2 <= 31.
Proof.
  unfold calendarDate. simpl. split.
  - pose proof (monthOfDayWithinYear_range (InLeapYear (MakeDate d 0))
                  (DayWithinYear (MakeDate d 0))) as Hm.
    unfold MonthFromTime. lia.
  - apply DateFromTime_range.
Qed.

End Date_facts.

(** ** Day keys as strings *)

Lemma string_app_nil s : EmptyString +:+ s = s.
Proof. reflexivity. Qed.

Lemma string_app_cons c s1 s2 : String c s1 +:+ s2 = String c (s1 +:+ s2).
Proof. reflexivity. Qed.

Lemma string_length_app s1 s2 :
  String.length (s1 +:+ s2) = (String.length s1 + String.length s2)%nat.
Proof.
  induction s1 as [|c s1 IH]; [done|].
  rewrite string_app_cons. cbn [String.length]. by rewrite IH.
Qed.

Lemma string_app_inj_suffix s1 s2 t1 t2 :
  String.length t1 = String.length t2 →
  s1 +:+ t1 = s2 +:+ t2 → s1 = s2 ∧ t1 = t2.
Proof.
  revert s2.
  induction s1 as [|c s1 IH]; intros [|c' s2] Hlen Heq;
    rewrite ?string_app_nil, ?string_app_cons in Heq.
  - done.
  - rewrite Heq in Hlen. cbn [String.length] in Hlen.
    rewrite string_length_app in Hlen. lia.
  - rewrite <- Heq in Hlen. cbn [String.length] in Hlen.
    rewrite string_length_app in Hlen. lia.
  - injection Heq as -> Heq. destruct (IH s2 Hlen Heq) as [-> ->]. done.
Qed.

Lemma pad_two_digits n :
  (1 ≤ n ≤ 31)%Z →
  String.length (V2.pad (Some n)) = 2%nat
  ∧ ∀ m, (1 ≤ m ≤ 31)%Z → V2.pad (Some n) = V2.pad (Some m) → n = m.
Proof.
  intros Hn.
  assert (forallb (λ n, Nat.eqb (String.length (V2.pad (Some n))) 2
                        && forallb (λ m, implb (String.eqb (V2.pad (Some n)) (V2.pad (Some m)))
                                               (Z.eqb n m))
                                   (seqZ 1 31))
                  (seqZ 1 31) = true) as Hall by (vm_compute; reflexivity).
  rewrite forallb_forall in Hall.
  assert (∀ k, (1 ≤ k ≤ 31)%Z → In k (seqZ 1 31)) as Hin.
  { intros k Hk. apply list_elem_of_In, elem_of_seqZ. lia. }
  specialize (Hall n (Hin n Hn)).
  apply andb_true_iff in Hall as [Hlen Hinj]. split.
  - by apply Nat.eqb_eq.
  - intros m Hm Heq. rewrite forallb_forall in Hinj.
    specialize (Hinj m (Hin m Hm)).
    apply String.eqb_eq in Heq. rewrite Heq in Hinj. by apply Z.eqb_eq.
Qed.

Lemma key_parts_inj (y1 y2 a1 a2 b1 b2 : string) :
  String.length a1 = 2%nat → String.length a2 = 2%nat →
  String.length b1 = 2%nat → String.length b2 = 2%nat →
  y1 +:+ "-" +:+ a1 +:+ "-" +:+ b1 = y2 +:+ "-" +:+ a2 +:+ "-" +:+ b2 →
  y1 = y2 ∧ a1 = a2 ∧ b1 = b2.
Proof.
  intros La1 La2 Lb1 Lb2 Hkey.
  apply string_app_inj_suffix in Hkey as [Hy Hrest].
  2: { rewrite !string_length_app, La1, La2, Lb1, Lb2. done. }
  rewrite !string_app_cons, !string_app_nil in Hrest. injection Hrest as Hrest.
  apply string_app_inj_suffix in Hrest as [Ha Hrest].
  2: { cbn [String.length]. by rewrite Lb1, Lb2. }
  by injection Hrest as Hb.
Qed.

Lemma dateKeyOf_inj d1 d2 :
  V2.dateKeyOf (JSDate.calendarDate d1) = V2.dateKeyOf (JSDate.calendarDate d2) →
  d1 = d2.
Proof.
  intros Hkey. apply calendarDate_inj.
  pose proof (calendarDate_range d1) as [Hm1 Hd1].
  pose proof (calendarDate_range d2) as [Hm2 Hd2].
  destruct (JSDate.calendarDate d1) as [[y1 m1] dt1].
  destruct (JSDate.calendarDate d2) as [[y2 m2] dt2].
  cbn [fst snd] in *. unfold V2.dateKeyOf in Hkey.
  destruct (pad_two_digits m1) as [Lm1 Im1]; [lia|].
  destruct (pad_two_digits m2) as [Lm2 _]; [lia|].
  destruct (pad_two_digits dt1) as [Ld1 Id1]; [done|].
  destruct (pad_two_digits dt2) as [Ld2 _]; [done|].
  apply key_parts_inj in Hkey as (Hy & Hm & Hd); [|done..].
  apply (inj pretty) in Hy.
  rewrite Hy, (Im1 m2), (Id1 dt2); auto with lia.
Qed.

(** ** The visible window of the second variant *)

Lemma TimeClip_valid t : JSDate.validTime t → JSDate.TimeClip t = Some t.
Proof.
  unfold JSDate.validTime, JSDate.TimeClip. intros H.
  destruct (Z.ltb_spec 8640000000000000 (Z.abs t)); [lia|done].
Qed.

Lemma same_Day_same_fields t1 t2 :
  JSDate.Day t1 = JSDate.Day t2 →
  JSDate.YearFromTime t1 = JSDate.YearFromTime t2
  ∧ JSDate.MonthFromTime t1 = JSDate.MonthFromTime t2
  ∧ JSDate.DateFromTime t1 = JSDate.DateFromTime t2.
Proof.
  intros HD. pose proof (calendarDate_of_time t1) as H1.
  pose proof (calendarDate_of_time t2) as H2.
  rewrite HD, <- H2 in H1. injection H1 as Hy Hm Hd.
  repeat split; [done|lia|done].
Qed.

Lemma formatDateKey_valid tz b :
  V2.formatDateKey tz (Some b)
  = V2.dateKeyOf (JSDate.calendarDate (JSDate.Day (JSDate.LocalTime tz b))).
Proof. by rewrite <- calendarDate_of_time. Qed.

Lemma Date_of_ymd_fields tz t i :
  ¬ (0 ≤ JSDate.YearFromTime t ≤ 99)%Z →
  JSDate.Date_of_ymd tz (Some (JSDate.YearFromTime t)) (Some (JSDate.MonthFromTime t))
    (Some (JSDate.DateFromTime t - i)%Z)
  = JSDate.TimeClip (JSDate.UTC tz (JSDate.MakeDate (JSDate.Day t - i) 0)).
Proof.
  intros Hy. unfold JSDate.Date_of_ymd. simpl.
  replace ((0 <=? JSDate.YearFromTime t)%Z && (JSDate.YearFromTime t <=? 99)%Z)
    with false.
  - by rewrite MakeDay_fields.
  - symmetry. apply andb_false_iff.
    destruct (Z.leb_spec 0 (JSDate.YearFromTime t)); [|by left].
    destruct (Z.leb_spec (JSDate.YearFromTime t) 99); [lia|by right].
Qed.

Lemma localMidnight_valid tz now :
  ¬ (0 ≤ JSDate.YearFromTime (JSDate.LocalTime tz now) ≤ 99)%Z →
  V2.localMidnight tz (Some now)
  = JSDate.TimeClip (JSDate.UTC tz (JSDate.MakeDate
      (JSDate.Day (JSDate.LocalTime tz now)) 0)).
Proof.
  intros Hy. unfold V2.localMidnight.
  change (JSDate.getFullYear tz (Some now))
    with (Some (JSDate.YearFromTime (JSDate.LocalTime tz now))).
  change (JSDate.getMonth tz (Some now))
    with (Some (JSDate.MonthFromTime (JSDate.LocalTime tz now))).
  change (JSDate.getDate tz (Some now))
    with (Some (JSDate.DateFromTime (JSDate.LocalTime tz now))).
  pose proof (Date_of_ymd_fields tz (JSDate.LocalTime tz now) 0 Hy) as H.
  by rewrite !Z.sub_0_r in H.
Qed.

(** The key computed for day [i] of the loop, from a base date [b0]. *)
Lemma visible_key tz b0 i :
  JSDate.keeps_midnight_day tz →
  ¬ (0 ≤ JSDate.YearFromTime (JSDate.LocalTime tz b0) ≤ 99)%Z →
  JSDate.validTime (JSDate.UTC tz (JSDate.MakeDate
     (JSDate.Day (JSDate.LocalTime tz b0) - i) 0)) →
  V2.formatDateKey tz
    (JSDate.Date_of_ymd tz (JSDate.getFullYear tz (Some b0))
       (JSDate.getMonth tz (Some b0))
       ((λ dt, dt - i)%Z <$> JSDate.getDate tz (Some b0)))
  = V2.dateKeyOf (JSDate.calendarDate (JSDate.Day (JSDate.LocalTime tz b0) - i)).
Proof.
  intros Hmid Hy Hv.
  change (JSDate.getFullYear tz (Some b0))
    with (Some (JSDate.YearFromTime (JSDate.LocalTime tz b0))).
  change (JSDate.getMonth tz (Some b0))
    with (Some (JSDate.MonthFromTime (JSDate.LocalTime tz b0))).
  change ((λ dt, dt - i)%Z <$> JSDate.getDate tz (Some b0))
    with (Some (JSDate.DateFromTime (JSDate.LocalTime tz b0) - i)%Z).
  rewrite (Date_of_ymd_fields tz _ i Hy), (TimeClip_valid _ Hv).
  rewrite formatDateKey_valid. by rewrite Hmid.
Qed.

(** X1: in a zone that keeps local midnights on their day, for a clock that
    does not read a year from 0 to 99 and a window inside the range of
    [Date], the keys are those of the [n] calendar days that end at the
    local calendar date of [now], newest first, all different. *)
Theorem visibleDates_are_local_calendar_days
    (tz : JSDate.TimeZone) (n : nat) (now : Z) :
  JSDate.keeps_midnight_day tz →
  ¬ (0 ≤ JSDate.YearFromTime (JSDate.LocalTime tz now) ≤ 99)%Z →
  Forall (λ i : nat, JSDate.validTime (JSDate.UTC tz (JSDate.MakeDate
            (JSDate.Day (JSDate.LocalTime tz now) - Z.of_nat i) 0))) (seq 0 n) →
  V2.visibleDates_of tz n now
  = (λ i : nat, V2.dateKeyOf (JSDate.calendarDate
        (JSDate.Day (JSDate.LocalTime tz now) - Z.of_nat i))) <$> seq 0 n
  ∧ length (V2.visibleDates_of tz n now) = n
  ∧ NoDup (V2.visibleDates_of tz n now)
  ∧ (∀ k, V2.visibleDates_of tz n now !! 0%nat = Some k →
          k = V2.dateKeyOf (JSDate.localCalendarDate tz now)).
Proof.
  intros Hmid Hyear Hvalid.
  assert (V2.visibleDates_of tz n now
          = (λ i : nat, V2.dateKeyOf (JSDate.calendarDate
                (JSDate.Day (JSDate.LocalTime tz now) - Z.of_nat i))) <$> seq 0 n)
    as Heq.
  { unfold V2.visibleDates_of. apply list_fmap_ext. intros k i Hi.
    rewrite Forall_forall in Hvalid.
    assert (0%nat ∈ seq 0 n) as H0.
    { apply lookup_seq in Hi as [_ Hlt]. apply elem_of_seq. lia. }
    assert (i ∈ seq 0 n) as Hin by (by eapply list_elem_of_lookup_2).
    pose proof (Hvalid _ H0) as Hv0. pose proof (Hvalid _ Hin) as Hvi.
    cbv beta in Hv0, Hvi. rewrite Z.sub_0_r in Hv0.
    rewrite (localMidnight_valid _ _ Hyear), (TimeClip_valid _ Hv0).
    pose proof (Hmid (JSDate.Day (JSDate.LocalTime tz now))) as Hb0.
    destruct (same_Day_same_fields _ _ Hb0) as (Hy & _ & _).
    rewrite visible_key; [by rewrite Hb0|done|by rewrite Hy|by rewrite Hb0]. }
  split; [done|]. rewrite Heq. split; [|split].
  - by rewrite length_fmap, length_seq.
  - apply NoDup_fmap_2_strong; [|apply NoDup_seq].
    intros i j _ _ Hk. apply dateKeyOf_inj in Hk. lia.
  - intros k Hk. rewrite list_lookup_fmap in Hk.
    destruct (seq 0 n !! 0%nat) as [i|] eqn:Hi; [|done].
    apply lookup_seq in Hi as [-> _].
    change (Some (V2.dateKeyOf (JSDate.calendarDate
              (JSDate.Day (JSDate.LocalTime tz now) - 0))) = Some k) in Hk.
    rewrite Z.sub_0_r in Hk. by injection Hk as <-.
Qed.

(** Zones that satisfy [keeps_midnight_day]: a constant offset, and a
    transition that moves the clock forward by less than a day or moves it
    back. *)
Lemma fixed_zone_keeps_midnight offset :
  JSDate.keeps_midnight_day (JSDate.fixed_zone offset).
Proof.
  intros d. unfold JSDate.LocalTime, JSDate.UTC, JSDate.fixed_zone. simpl.
  replace (JSDate.MakeDate d 0 - offset + offset)%Z with (JSDate.MakeDate d 0) by lia.
  apply Day_MakeDate.
Qed.

Lemma dst_zone_keeps_midnight T before after :
  (after - before < JSDate.msPerDay)%Z →
  JSDate.keeps_midnight_day (JSDate.dst_zone T before after).
Proof.
  intros Hshift d.
  unfold JSDate.LocalTime, JSDate.UTC, JSDate.dst_zone, JSDate.LocalTZA.
  unfold JSDate.Day, JSDate.MakeDate, JSDate.msPerDay in *.
  repeat match goal with
         | |- context [Z.ltb ?a ?b] => destruct (Z.ltb_spec a b)
         | |- context [Z.leb ?a ?b] => destruct (Z.leb_spec a b)
         end; Z.div_mod_to_equations; lia.
Qed.

(** The window across the start of daylight saving time in a zone five
    hours behind UTC that moves to four hours behind on 2024-03-10 at
    07:00 UTC; the clock reads 2024-03-12 12:00 UTC. *)
Lemma visibleDates_across_dst_start :
  V2.visibleDates_init (JSDate.dst_zone 1710054000000 (-18000000) (-14400000))
    1710244800000
  = ["2024-03-12"; "2024-03-11"; "2024-03-10"; "2024-03-09"; "2024-03-08";
     "2024-03-07"; "2024-03-06"]
  ∧ NoDup (V2.visibleDates_init
             (JSDate.dst_zone 1710054000000 (-18000000) (-14400000)) 1710244800000).
Proof.
  split; [reflexivity|].
  refine (proj1 (proj2 (proj2 (visibleDates_are_local_calendar_days
            (JSDate.dst_zone 1710054000000 (-18000000) (-14400000))
            V2.VISIBLE_DAYS 1710244800000 _ _ _)))).
  - apply dst_zone_keeps_midnight. reflexivity.
  - vm_compute. intros [_ H]. by apply H.
  - repeat constructor; vm_compute; discriminate.
Defined.

(** C2 on the code: at 2024-01-02 01:00 UTC, in a zone three hours behind
    UTC the local date is 2024-01-01; the UTC variants start the window at
    2024-01-02, the local-date variant at 2024-01-01. *)
Theorem utc_window_starts_off_the_local_date :
  V3.visibleDates_init 1704157200000
  = Some ["2024-01-02"; "2024-01-01"; "2023-12-31"; "2023-12-30"; "2023-12-29";
          "2023-12-28"; "2023-12-27"]
  ∧ V1.visibleDates_init 1704157200000 = V3.visibleDates_init 1704157200000
  ∧ JSDate.localCalendarDate (JSDate.fixed_zone (-10800000)) 1704157200000
    = (2024, 1, 1)%Z
  ∧ V2.visibleDates_init (JSDate.fixed_zone (-10800000)) 1704157200000
    = ["2024-01-01"; "2023-12-31"; "2023-12-30"; "2023-12-29"; "2023-12-28";
       "2023-12-27"; "2023-12-26"].
Proof. repeat split; reflexivity. Qed.

(** ** Loading the local cache *)

(** C8, as the code has it.  The load returns the empty object when the
    storage cannot be read, when the key is absent, when the stored text
    is empty and when it does not parse; any other text yields the parsed
    value itself, whatever its shape. *)
Theorem load_outcomes (st : Storage) (key : string) :
  V1.itemsMap_init st = readItems V1.STORAGE_KEY st
  ∧ V2.readLocalStorageItems st = readItems V2.STORAGE_KEY st
  ∧ (getItem st key = None → readItems key st = JSON.JObject [])
  ∧ (getItem st key = Some None → readItems key st = JSON.JObject [])
  ∧ (∀ raw, getItem st key = Some (Some raw) →
       raw = EmptyString ∨ JSON.parse raw = None →
       readItems key st = JSON.JObject [])
  ∧ (∀ raw v, getItem st key = Some (Some raw) →
       raw ≠ EmptyString → JSON.parse raw = Some v →
       readItems key st = v)
  ∧ (JSON.is_mapping (readItems key st) = false →
     ∃ raw v, getItem st key = Some (Some raw) ∧ JSON.parse raw = Some v
              ∧ JSON.is_mapping v = false).
Proof.
  unfold readItems. repeat split.
  - by intros ->.
  - by intros ->.
  - intros raw -> [->|Hp]; [done|].
    rewrite Hp. by destruct (String.eqb raw _).
  - intros raw v -> Hne Hp. rewrite Hp.
    by destruct (String.eqb_spec raw EmptyString).
  - destruct (getItem st key) as [[raw|]|]; simpl; try done.
    destruct (String.eqb raw _); [done|].
    destruct (JSON.parse raw) as [v|] eqn:Hp; [|done].
    intros Hv. by exists raw, v.
Qed.

(** The reader on the text the component saves, and the three ways to
    the empty object. *)
Example parse_saved_items :
  JSON.parse ("{" +:+ JSON.quoted "2024-01-01" +:+ ": [{" +:+ JSON.quoted "id"
              +:+ ":" +:+ JSON.quoted "local-a" +:+ "," +:+ JSON.quoted "createdAtMs"
              +:+ ":1704157200000}]}")
  = Some (JSON.JObject
            [("2024-01-01",
              JSON.JArray [JSON.JObject [("id", JSON.JString "local-a");
                                         ("createdAtMs", JSON.JNumber "1704157200000")]])]).
Proof. reflexivity. Qed.

Example load_recovers :
  V2.readLocalStorageItems StorageDenied = JSON.JObject []
  ∧ V2.readLocalStorageItems (StorageOf ∅) = JSON.JObject []
  ∧ V2.readLocalStorageItems (StorageOf {[ V2.STORAGE_KEY := "{oops" ]})
    = JSON.JObject [].
Proof. repeat split; reflexivity. Qed.

(** C8 fails for a stored text that is JSON but no object: the text
    [null] loads as [null]. *)
Lemma load_of_null_is_no_mapping :
  V2.readLocalStorageItems (StorageOf {[ V2.STORAGE_KEY := "null" ]}) = JSON.JNull
  ∧ JSON.is_mapping
      (V2.readLocalStorageItems (StorageOf {[ V2.STORAGE_KEY := "null" ]})) = false
  ∧ JSON.is_mapping
      (V1.itemsMap_init (StorageOf {[ V1.STORAGE_KEY := "[1,2]" ]})) = false.
Proof. repeat split; reflexivity. Qed.

(** ** List and bucket helpers *)

Lemma filter_all {A} (P : A → Prop) `{!∀ a, Decision (P a)} (l : list A) :
  Forall P l → filter P l = l.
Proof.
  induction 1 as [|x l Hx _ IH]; [done|].
  by rewrite filter_cons_True, IH.
Qed.

Lemma filter_none {A} (P : A → Prop) `{!∀ a, Decision (P a)} (l : list A) :
  Forall (λ a, ¬ P a) l → filter P l = [].
Proof.
  induction 1 as [|x l Hx _ IH]; [done|].
  by rewrite filter_cons_False.
Qed.

Lemma or_zero_id n : JS.or_zero n = n.
Proof. unfold JS.or_zero. case_decide; congruence. Qed.

Lemma byCreatedAt_key a b : byCreatedAt a b = (createdAtMs a - createdAtMs b)%Z.
Proof. unfold byCreatedAt. by rewrite !or_zero_id. Qed.

Lemma bucket_insert {A} (m : gmap string (list A)) dk dk' arr :
  bucket (<[dk := arr]> m) dk' = if decide (dk = dk') then arr else bucket m dk'.
Proof. unfold bucket. rewrite lookup_insert. by case_decide. Qed.

Lemma StronglySorted_ordered l :
  StronglySorted (λ a b, (createdAtMs a ≤ createdAtMs b)%Z) l ↔ ordered l.
Proof.
  split.
  - induction 1 as [|x l Hs IH Hall]; intros i j a b Hi Hj Hij.
    + by rewrite lookup_nil in Hi.
    + destruct i as [|i], j as [|j]; simpl in *; simplify_eq; try lia.
      * rewrite Forall_forall in Hall. apply Hall.
        by eapply list_elem_of_lookup_2.
      * eapply IH; eauto with lia.
  - induction l as [|x l IH]; intros Ho; constructor.
    + apply IH. intros i j a b Hi Hj Hij.
      apply (Ho (S i) (S j)); simpl; auto with lia.
    + apply Forall_forall. intros y Hy.
      apply list_elem_of_lookup_1 in Hy as [j Hj].
      apply (Ho 0%nat (S j)); simpl; auto with lia.
Qed.

Lemma Array_sort_ordered l : ordered (JS.Array_sort byCreatedAt l).
Proof.
  apply StronglySorted_ordered.
  apply (Array_sort_sorted createdAtMs byCreatedAt byCreatedAt_key).
Qed.

Lemma Array_sort_keeps_ties l : keeps_ties_of l (JS.Array_sort byCreatedAt l).
Proof.
  split.
  - apply (Array_sort_Permutation byCreatedAt).
  - apply (Array_sort_stable createdAtMs byCreatedAt byCreatedAt_key).
Qed.

Lemma ordered_filter (P : Item → Prop) `{!∀ a, Decision (P a)} l :
  ordered l → ordered (filter P l).
Proof.
  rewrite <- !StronglySorted_ordered.
  induction 1 as [|x l Hs IH Hall]; [constructor|].
  rewrite filter_cons. case_decide; [|done].
  constructor; [done|].
  apply Forall_forall. intros y Hy. apply list_elem_of_filter in Hy as [_ Hy].
  rewrite Forall_forall in Hall. by apply Hall.
Qed.

(** ** The merge of one day *)

Section Merge_facts.
Variable keepLocal : Item → bool.

Lemma dupKey_not_pending s : dupKey (not_pending s) = dupKey s.
Proof. done. Qed.

Lemma mergeDay_ordered current serverArr :
  ordered (mergeDay keepLocal current serverArr).
Proof. apply Array_sort_ordered. Qed.

Lemma mergeDay_keeps_ties current serverArr :
  keeps_ties_of (mergeCandidates keepLocal current serverArr)
                (mergeDay keepLocal current serverArr).
Proof. apply Array_sort_keeps_ties. Qed.

Lemma mergeDay_idemp current serverArr :
  mergeDay keepLocal (mergeDay keepLocal current serverArr) serverArr
  = mergeDay keepLocal current serverArr.
Proof.
  unfold mergeDay, mergeCandidates.
  set (serverKeys := list_to_set (dupKey <$> serverArr) : gset string).
  set (nS := not_pending <$> serverArr).
  set (FL := filter (λ l, dupKey l ∉ serverKeys) (filter (λ i, keepLocal i) current)).
  pose proof (filter_Array_sort createdAtMs byCreatedAt byCreatedAt_key) as Hcomm.
  rewrite !Hcomm, !filter_app.
  assert (filter (λ l, dupKey l ∉ serverKeys) (filter (λ i, keepLocal i) nS) = []) as ->.
  { apply filter_none, Forall_forall. intros x Hx Hnin.
    apply list_elem_of_filter in Hx as [_ Hx].
    apply list_elem_of_fmap in Hx as [s [-> Hs]].
    apply Hnin. rewrite dupKey_not_pending.
    apply elem_of_list_to_set, list_elem_of_fmap. eauto. }
  assert (filter (λ l, dupKey l ∉ serverKeys) (filter (λ i, keepLocal i) FL) = FL) as ->.
  { rewrite (filter_all (λ i, keepLocal i)).
    - apply filter_all, Forall_forall. intros x Hx.
      by apply list_elem_of_filter in Hx as [? _].
    - apply Forall_forall. intros x Hx.
      apply list_elem_of_filter in Hx as [_ Hx].
      by apply list_elem_of_filter in Hx as [? _]. }
  simpl.
  apply (Array_sort_app_sorted_r createdAtMs byCreatedAt byCreatedAt_key).
Qed.

(** What the loop leaves in each bucket, for any list of visible days
    (a day listed twice is merged twice, to the same bucket). *)
Lemma mergeVisible_lookup visibleDates fromServer prev dk :
  mergeVisible keepLocal visibleDates fromServer prev !! dk =
    if decide (dk ∈ visibleDates)
    then Some (mergeDay keepLocal (bucket prev dk) (bucket fromServer dk))
    else prev !! dk.
Proof.
  unfold mergeVisible. revert prev.
  induction visibleDates as [|d vs IH]; intros prev; cbn [foldl].
  - rewrite decide_False; [done|]. apply not_elem_of_nil.
  - rewrite IH. destruct (decide (dk ∈ vs)) as [Hin|Hnin].
    + rewrite decide_True by (by right).
      rewrite bucket_insert. case_decide as Hd; [|done].
      subst d. by rewrite mergeDay_idemp.
    + destruct (decide (d = dk)) as [->|Hne].
      * rewrite decide_True by left. by rewrite lookup_insert_eq.
      * rewrite decide_False by (rewrite elem_of_cons; intros [?|?]; done).
        by rewrite lookup_insert_ne.
Qed.
End Merge_facts.

(** ** Buckets of the derived maps *)

Lemma bucket_delete {A} (m : gmap string (list A)) dk dk' :
  bucket (delete dk m) dk' = if decide (dk = dk') then [] else bucket m dk'.
Proof. unfold bucket. rewrite lookup_delete. by case_decide. Qed.

Lemma bucket_mergeVisible keepLocal visibleDates fromServer prev dk :
  bucket (mergeVisible keepLocal visibleDates fromServer prev) dk =
    if decide (dk ∈ visibleDates)
    then mergeDay keepLocal (bucket prev dk) (bucket fromServer dk)
    else bucket prev dk.
Proof.
  unfold bucket at 1. rewrite mergeVisible_lookup. by case_decide.
Qed.

Lemma bucket_V3_toSave m dk : bucket (V3.toSave m) dk = stored_of <$> bucket m dk.
Proof.
  unfold bucket, V3.toSave. rewrite lookup_fmap. by destruct (m !! dk).
Qed.

Lemma bucket_V2_toSave m dk : bucket (V2.toSave m) dk = stored_of <$> bucket m dk.
Proof.
  unfold bucket, V2.toSave. rewrite lookup_fmap, map_lookup_filter.
  destruct (m !! dk) as [arr|]; simpl; [|done].
  case_guard as Hlen; simpl in *; [done|].
  destruct arr; [done|]. simpl in Hlen. lia.
Qed.

Lemma bucket_removeLocal dateKey id0 prev dk :
  bucket (V2.removeLocal dateKey id0 prev) dk =
    if decide (dateKey = dk)
    then filter (λ it, id it ≠ id0) (bucket prev dateKey)
    else bucket prev dk.
Proof.
  unfold V2.removeLocal. case_decide as Hlen.
  - apply bucket_insert.
  - rewrite bucket_delete. case_decide; [|done].
    destruct (filter _ _); [done|]. simpl in Hlen. lia.
Qed.

Lemma removeLocal_lookup_ne dateKey id0 prev dk :
  dateKey ≠ dk → V2.removeLocal dateKey id0 prev !! dk = prev !! dk.
Proof.
  intros Hne. unfold V2.removeLocal. case_decide.
  - by rewrite lookup_insert_ne.
  - by rewrite lookup_delete_ne.
Qed.

#[local] Hint Rewrite @bucket_insert @bucket_delete bucket_mergeVisible
  bucket_removeLocal bucket_V2_toSave bucket_V3_toSave : bucket.

Lemma filter_other_id (l : list Item) id0 :
  (∀ it, it ∈ l → id it ≠ id0) → filter (λ it, id it ≠ id0) l = l.
Proof. intros H. apply filter_all, Forall_forall. exact H. Qed.

Lemma ordered_fmap_createdAt (f : Item → Item) l :
  (∀ it, createdAtMs (f it) = createdAtMs it) → ordered l → ordered (f <$> l).
Proof.
  intros Hf Ho i j a b Hi Hj Hij.
  rewrite list_lookup_fmap in Hi, Hj.
  destruct (l !! i) as [a0|] eqn:Hi0; [|done].
  destruct (l !! j) as [b0|] eqn:Hj0; [|done].
  simpl in *. simplify_eq. rewrite !Hf. eauto.
Qed.

(** ** The reconciliation claims *)

(** C3. In the merge of a visible day, a pending local item whose title and
    [createdAtMs] are those of a server record of the day is dropped; when
    that item and that record are all there is, the merged bucket is the
    record alone, with its server identity and [pending = false]. *)
Theorem merge_drops_confirmed_local
    (visibleDates : list string) (fromServer prev : ItemsMap)
    (dk : string) (l s : Item) :
  dk ∈ visibleDates →
  l ∈ bucket prev dk → V2.keepLocal l → pending l = Some true →
  s ∈ bucket fromServer dk →
  title l = title s → createdAtMs l = createdAtMs s →
  (l ∉ bucket (V2.merge visibleDates fromServer prev) dk)
  ∧ (bucket prev dk = [l] → bucket fromServer dk = [s] →
     bucket (V2.merge visibleDates fromServer prev) dk = [not_pending s]).
Proof.
  intros Hdk Hl Hloc Hpend Hs Ht Hc.
  unfold V2.merge. bucket_simpl.
  assert (dupKey l ∈ (list_to_set (dupKey <$> bucket fromServer dk) : gset string))
    as Hdup.
  { apply elem_of_list_to_set, list_elem_of_fmap. exists s. split; [|done].
    unfold dupKey. by rewrite Ht, Hc. }
  split.
  - intros Hin. unfold mergeDay in Hin.
    rewrite (Array_sort_Permutation byCreatedAt) in Hin.
    unfold mergeCandidates in Hin.
    apply elem_of_app in Hin as [Hin|Hin].
    + apply list_elem_of_fmap in Hin as [r [-> _]]. done.
    + apply list_elem_of_filter in Hin as [Hnin _]. by apply Hnin.
  - intros Hprev Hsrv. rewrite Hsrv in Hdup.
    unfold mergeDay, mergeCandidates. rewrite Hprev, Hsrv.
    rewrite (filter_all (λ i, V2.keepLocal i) [l])
      by (by apply Forall_singleton).
    rewrite (filter_none _ [l]); [done|].
    apply Forall_singleton. by intros Hnin.
Qed.

(** The example of the specification: local [{title: "A", createdAt: 1000}]
    against remote [{title: "A", createdAt: 1000, identity: "r1"}]. *)
Lemma merge_drops_confirmed_local_witness :
  bucket (V2.merge ["2024-01-01"]
            {[ "2024-01-01" := [mkItem "r1" "A" EmptyString 1000 None] ]}
            {[ "2024-01-01" := [mkItem "local-k3x9" "A" EmptyString 1000 (Some true)] ]})
         "2024-01-01"
  = [mkItem "r1" "A" EmptyString 1000 (Some false)].
Proof.
  refine (proj2 (merge_drops_confirmed_local ["2024-01-01"]
            {[ "2024-01-01" := [mkItem "r1" "A" EmptyString 1000 None] ]}
            {[ "2024-01-01" := [mkItem "local-k3x9" "A" EmptyString 1000 (Some true)] ]}
            "2024-01-01"
            (mkItem "local-k3x9" "A" EmptyString 1000 (Some true))
            (mkItem "r1" "A" EmptyString 1000 None)
            _ _ _ _ _ _ _) _ _);
    first [ reflexivity | exact I | by left ].
Defined.

(** Every updater keeps all buckets ordered. *)
Lemma mergeVisible_keeps_ordered keepLocal visibleDates fromServer prev :
  (∀ d, ordered (bucket prev d)) →
  ∀ d, ordered (bucket (mergeVisible keepLocal visibleDates fromServer prev) d).
Proof.
  intros Hprev d. bucket_simpl.
  case_decide; [apply mergeDay_ordered|apply Hprev].
Qed.

Lemma insertLocal_keeps_ordered dk rec prev :
  (∀ d, ordered (bucket prev d)) → ∀ d, ordered (bucket (insertLocal dk rec prev) d).
Proof.
  intros Hprev d. unfold insertLocal. bucket_simpl.
  case_decide; [apply Array_sort_ordered|apply Hprev].
Qed.

Lemma promote_keeps_ordered dk localId newId prev :
  (∀ d, ordered (bucket prev d)) →
  ∀ d, ordered (bucket (promote dk localId newId prev) d).
Proof.
  intros Hprev d. unfold promote. bucket_simpl.
  case_decide; [|apply Hprev].
  apply ordered_fmap_createdAt; [|apply Hprev].
  intros it. by case_decide.
Qed.

Lemma removeLocal_keeps_ordered dk id0 prev :
  (∀ d, ordered (bucket prev d)) → ∀ d, ordered (bucket (V2.removeLocal dk id0 prev) d).
Proof.
  intros Hprev d. bucket_simpl.
  case_decide; [|apply Hprev]. apply ordered_filter, Hprev.
Qed.

Lemma itemsMap_step tz visibleDates s ev :
  V2.itemsMap (V2.step tz visibleDates s ev) = V2.itemsMap (V2.update tz visibleDates ev s).
Proof.
  unfold V2.step, V2.uploadPending.
  destruct (_ || _); [|done]. by destruct (V2.db _).
Qed.

Lemma step_keeps_ordered tz visibleDates s ev :
  (∀ d, ordered (bucket (V2.itemsMap s) d)) →
  ∀ d, ordered (bucket (V2.itemsMap (V2.step tz visibleDates s ev)) d).
Proof.
  intros Hs. rewrite itemsMap_step.
  destruct ev as [fs|now res|dk t l sfx now|dk lid nid|remote dk id0]; simpl.
  - done.
  - destruct (V2.db s); [|done]. destruct res as [|docs]; [done|].
    simpl. by apply mergeVisible_keeps_ordered.
  - by apply insertLocal_keeps_ordered.
  - by apply promote_keeps_ordered.
  - destruct (String.eqb id0 _); [done|].
    destruct (V2.deleteItem_calls_remote _ _); [destruct remote|]; simpl;
      try done; by apply removeLocal_keeps_ordered.
Qed.

Lemma addItem_keeps_ordered db created dk t l sfx now prev :
  (∀ d, ordered (bucket prev d)) →
  ∀ d, ordered (bucket (addItem db created dk t l sfx now prev) d).
Proof.
  intros Hprev. unfold addItem.
  destruct db; [destruct created|];
    auto using promote_keeps_ordered, insertLocal_keeps_ordered.
Qed.

Lemma addItem_bucket_ordered db created dk t l sfx now prev :
  ordered (bucket (addItem db created dk t l sfx now prev) dk).
Proof.
  assert (ordered (bucket (insertLocal dk (localRec sfx t l now) prev) dk)) as Hins.
  { unfold insertLocal. bucket_simpl. apply Array_sort_ordered. }
  unfold addItem. destruct db; [destruct created|]; try done.
  unfold promote. bucket_simpl.
  apply ordered_fmap_createdAt; [|done]. intros it. by case_decide.
Qed.

(** C4. After the merge, each visible day's bucket is ordered by
    non-decreasing [createdAtMs] and items of equal [createdAtMs] stand as
    in the list that was sorted (server records first, then the surviving
    local items); after [addItem], the same holds of the day's bucket, the
    new item last among its ties, also once the item is promoted; and the
    merge, [addItem] and every event of the component keep all buckets
    ordered. *)
Theorem buckets_ordered_after_merge_and_add
    (keepLocal : Item → bool) (visibleDates : list string)
    (fromServer prev : ItemsMap) (dk : string) (rec : Item)
    (db : bool) (created : option string) (title link suffix : string) (now : Z)
    (tz : JSDate.TimeZone) (s : V2.AppState) (ev : V2.Event) :
  dk ∈ visibleDates →
  (ordered (bucket (mergeVisible keepLocal visibleDates fromServer prev) dk)
   ∧ keeps_ties_of (mergeCandidates keepLocal (bucket prev dk) (bucket fromServer dk))
                   (bucket (mergeVisible keepLocal visibleDates fromServer prev) dk))
  ∧ (ordered (bucket (insertLocal dk rec prev) dk)
     ∧ keeps_ties_of (bucket prev dk ++ [rec]) (bucket (insertLocal dk rec prev) dk)
     ∧ ordered (bucket (addItem db created dk title link suffix now prev) dk))
  ∧ ((∀ d, ordered (bucket prev d)) →
     (∀ d, ordered (bucket (mergeVisible keepLocal visibleDates fromServer prev) d))
     ∧ (∀ d, ordered (bucket (addItem db created dk title link suffix now prev) d)))
  ∧ ((∀ d, ordered (bucket (V2.itemsMap s) d)) →
     ∀ d, ordered (bucket (V2.itemsMap (V2.step tz visibleDates s ev)) d)).
Proof.
  intros Hdk. split; [|split; [|split]].
  - bucket_simpl. split; [apply mergeDay_ordered|apply mergeDay_keeps_ties].
  - unfold insertLocal. bucket_simpl.
    split; [apply Array_sort_ordered|]. split; [apply Array_sort_keeps_ties|].
    apply addItem_bucket_ordered.
  - intros Hprev.
    split; [by apply mergeVisible_keeps_ordered|by apply addItem_keeps_ordered].
  - apply step_keeps_ordered.
Qed.

(** Two server records and two local items, with ties at 1000: the merged
    bucket keeps the server record before the local item of the same
    time, and an added item goes behind its ties. *)
Lemma buckets_ordered_after_merge_and_add_witness :
  bucket (mergeVisible V2.keepLocal ["2024-01-01"]
            {[ "2024-01-01" := [mkItem "r1" "A" EmptyString 1000 None;
                                mkItem "r2" "B" EmptyString 3000 None] ]}
            {[ "2024-01-01" := [mkItem "local-a" "C" EmptyString 2000 (Some true);
                                mkItem "local-b" "D" EmptyString 1000 (Some true)] ]})
         "2024-01-01"
  = [mkItem "r1" "A" EmptyString 1000 (Some false);
     mkItem "local-b" "D" EmptyString 1000 (Some true);
     mkItem "local-a" "C" EmptyString 2000 (Some true);
     mkItem "r2" "B" EmptyString 3000 (Some false)]
  ∧ ordered (bucket (mergeVisible V2.keepLocal ["2024-01-01"]
            {[ "2024-01-01" := [mkItem "r1" "A" EmptyString 1000 None;
                                mkItem "r2" "B" EmptyString 3000 None] ]}
            {[ "2024-01-01" := [mkItem "local-a" "C" EmptyString 2000 (Some true);
                                mkItem "local-b" "D" EmptyString 1000 (Some true)] ]})
         "2024-01-01").
Proof.
  split; [reflexivity|].
  refine (proj1 (proj1 (buckets_ordered_after_merge_and_add V2.keepLocal
            ["2024-01-01"] _ _ "2024-01-01"
            (localRec "z" "E" EmptyString 1000)
            true (Some "r3") "E" EmptyString "z" 1000
            (JSDate.fixed_zone 0) (V2.mounted ∅) (V2.SetDb true) _))).
  by left.
Defined.

(** C5. The merge is idempotent: merging a day's merged bucket with the
    same server records again gives the same ordered list, and so does
    the whole updater, and a whole fetch cycle, run a second time on its
    own result with the same server answer. *)
Theorem merge_idempotent
    (keepLocal : Item → bool) (visibleDates : list string)
    (fromServer prev : ItemsMap) (current serverArr : list Item)
    (tz : JSDate.TimeZone) (now : Z) (db : bool) (res : QueryResult) :
  mergeDay keepLocal (mergeDay keepLocal current serverArr) serverArr
    = mergeDay keepLocal current serverArr
  ∧ mergeVisible keepLocal visibleDates fromServer
      (mergeVisible keepLocal visibleDates fromServer prev)
    = mergeVisible keepLocal visibleDates fromServer prev
  ∧ V2.fetchVisibleDays tz now visibleDates db res
      (V2.fetchVisibleDays tz now visibleDates db res prev)
    = V2.fetchVisibleDays tz now visibleDates db res prev.
Proof.
  assert (∀ kl fs, mergeVisible kl visibleDates fs (mergeVisible kl visibleDates fs prev)
                   = mergeVisible kl visibleDates fs prev) as Hmap.
  { intros kl fs. apply map_eq. intros dk.
    rewrite !mergeVisible_lookup. case_decide; [|done].
    bucket_simpl. by rewrite mergeDay_idemp. }
  split; [apply mergeDay_idemp|]. split; [apply Hmap|].
  unfold V2.fetchVisibleDays, V2.merge.
  destruct db; [|done]. destruct res as [|docs]; [done|]. apply Hmap.
Qed.

(** C9. A fetch-and-merge cycle leaves the bucket of every day outside
    the visible window as it was, whatever the query returns; so does the
    merge updater of the third variant. *)
Theorem fetch_leaves_hidden_days
    (tz : JSDate.TimeZone) (now : Z) (visibleDates : list string) (db : bool)
    (res : QueryResult) (fromServer prev : ItemsMap) (dk : string) :
  dk ∉ visibleDates →
  V2.fetchVisibleDays tz now visibleDates db res prev !! dk = prev !! dk
  ∧ V3.merge visibleDates fromServer prev !! dk = prev !! dk.
Proof.
  intros Hdk. split.
  - unfold V2.fetchVisibleDays, V2.merge.
    destruct db; [|done]. destruct res as [|docs]; [done|].
    rewrite mergeVisible_lookup. by rewrite decide_False.
  - unfold V3.merge. rewrite mergeVisible_lookup. by rewrite decide_False.
Qed.

(** A server document filed under a day outside the window does not reach
    that day's bucket. *)
Lemma fetch_leaves_hidden_days_witness :
  V2.fetchVisibleDays (JSDate.fixed_zone 0) 1704157200000
    ["2024-01-02"; "2024-01-01"] true
    (QuerySnapshot [mkDoc "r9" "X" EmptyString "2023-11-30" (Some 5%Z)])
    {[ "2023-11-30" := [mkItem "local-q" "Old" EmptyString 7 (Some true)] ]}
    !! "2023-11-30"
  = Some [mkItem "local-q" "Old" EmptyString 7 (Some true)].
Proof.
  refine (eq_trans (proj1 (fetch_leaves_hidden_days (JSDate.fixed_zone 0)
            1704157200000 ["2024-01-02"; "2024-01-01"] true
            (QuerySnapshot [mkDoc "r9" "X" EmptyString "2023-11-30" (Some 5%Z)])
            ∅
            {[ "2023-11-30" := [mkItem "local-q" "Old" EmptyString 7 (Some true)] ]}
            "2023-11-30" _)) _).
  - apply not_elem_of_cons. split; [done|].
    apply not_elem_of_cons. split; [done|]. apply not_elem_of_nil.
  - reflexivity.
Defined.

(** C6. Promotion rewrites the bucket of its day position by position: an
    item with the local identity gets the server identity and
    [pending = false] and keeps its title, link, [createdAtMs] and place;
    every item with another identity, and every other bucket, is as
    before. *)
Theorem promotion_changes_identity_only
    (dateKey localId newId : string) (prev : ItemsMap) :
  (∀ dk, dk ≠ dateKey → promote dateKey localId newId prev !! dk = prev !! dk)
  ∧ length (bucket (promote dateKey localId newId prev) dateKey)
    = length (bucket prev dateKey)
  ∧ (∀ (i : nat) it, bucket prev dateKey !! i = Some it →
       ∃ it', bucket (promote dateKey localId newId prev) dateKey !! i = Some it'
              ∧ title it' = title it ∧ link it' = link it
              ∧ createdAtMs it' = createdAtMs it
              ∧ (id it = localId → id it' = newId ∧ pending it' = Some false)
              ∧ (id it ≠ localId → it' = it)).
Proof.
  unfold promote. split; [|split].
  - intros dk Hne. by rewrite lookup_insert_ne.
  - bucket_simpl. apply length_fmap.
  - intros i it Hi. bucket_simpl.
    rewrite list_lookup_fmap, Hi. simpl.
    eexists. split; [done|]. by case_decide.
Qed.

(** ** Removal *)

(** C10. Removing an identity that no item of the day's bucket carries
    leaves the bucket's list as it was, in every variant and however a
    remote delete settles. *)
Theorem remove_unknown_identity_keeps_bucket
    (dateKey id0 : string) (prev1 : gmap string (list V1.Item)) (prev : ItemsMap)
    (db : bool) (remote : RemoteOutcome) :
  (∀ it, it ∈ bucket prev1 dateKey → V1.id it ≠ id0) →
  (∀ it, it ∈ bucket prev dateKey → id it ≠ id0) →
  bucket (V1.removeItem dateKey id0 prev1) dateKey = bucket prev1 dateKey
  ∧ bucket (V2.deleteItem db remote dateKey id0 prev) dateKey = bucket prev dateKey
  ∧ bucket (V3.removeItem dateKey id0 prev) dateKey = bucket prev dateKey.
Proof.
  intros H1 H. split; [|split].
  - unfold V1.removeItem. bucket_simpl.
    apply filter_all, Forall_forall. exact H1.
  - assert (bucket (V2.removeLocal dateKey id0 prev) dateKey = bucket prev dateKey)
      as Hrm.
    { bucket_simpl. by apply filter_other_id. }
    unfold V2.deleteItem.
    destruct (String.eqb id0 _); [done|].
    destruct (JS.startsWith id0 _); [done|].
    destruct db; [|done]. by destruct remote.
  - unfold V3.removeItem. bucket_simpl. by apply filter_other_id.
Qed.

(** Removing the identity [zz], which no item has. *)
Lemma remove_unknown_identity_keeps_bucket_witness :
  bucket (V2.deleteItem true Rejected "2024-01-01" "zz"
            {[ "2024-01-01" := [mkItem "r1" "A" EmptyString 1000 (Some false);
                                mkItem "local-b" "D" EmptyString 1000 (Some true)] ]})
         "2024-01-01"
  = bucket ({[ "2024-01-01" := [mkItem "r1" "A" EmptyString 1000 (Some false);
                                mkItem "local-b" "D" EmptyString 1000 (Some true)] ]}
            : ItemsMap) "2024-01-01".
Proof.
  refine (proj1 (proj2 (remove_unknown_identity_keeps_bucket "2024-01-01" "zz"
            {[ "2024-01-01" := [V1.mkItem "k1" "A" EmptyString] ]} _
            true Rejected _ _))).
  - intros it Hin. apply list_elem_of_singleton in Hin as ->. done.
  - intros it Hin.
    apply elem_of_cons in Hin as [->|Hin]; [done|].
    apply list_elem_of_singleton in Hin as ->. done.
Defined.

(** C1, as the code has it.  [removeItem] takes every item with the
    identity out of the day's bucket, in memory and in the saved form, and
    touches no other bucket; it calls no remote operation.  [deleteItem]
    does the same when the identity is local, when there is no [db], or
    when the remote delete has resolved; when the remote delete is
    rejected, and for an empty identity, it leaves the state as it was. *)
Theorem removal_outcomes
    (dateKey id0 : string) (prev : ItemsMap) (db : bool) (remote : RemoteOutcome) :
  (bucket (V3.removeItem dateKey id0 prev) dateKey
     = filter (λ it, id it ≠ id0) (bucket prev dateKey)
   ∧ bucket (V3.toSave (V3.removeItem dateKey id0 prev)) dateKey
     = stored_of <$> filter (λ it, id it ≠ id0) (bucket prev dateKey)
   ∧ ∀ dk, dk ≠ dateKey → V3.removeItem dateKey id0 prev !! dk = prev !! dk)
  ∧ (id0 ≠ EmptyString →
     V2.deleteItem_calls_remote db id0 = false ∨ remote = Resolved →
     bucket (V2.deleteItem db remote dateKey id0 prev) dateKey
       = filter (λ it, id it ≠ id0) (bucket prev dateKey)
     ∧ bucket (V2.toSave (V2.deleteItem db remote dateKey id0 prev)) dateKey
       = stored_of <$> filter (λ it, id it ≠ id0) (bucket prev dateKey)
     ∧ ∀ dk, dk ≠ dateKey → V2.deleteItem db remote dateKey id0 prev !! dk = prev !! dk)
  ∧ (V2.deleteItem_calls_remote db id0 = true → remote = Rejected →
     V2.deleteItem db remote dateKey id0 prev = prev)
  ∧ V2.deleteItem db remote dateKey EmptyString prev = prev.
Proof.
  split; [|split; [|split]].
  - unfold V3.removeItem. bucket_simpl. repeat split.
    intros dk Hne. by rewrite lookup_insert_ne.
  - intros Hid Hcase.
    assert (V2.deleteItem db remote dateKey id0 prev = V2.removeLocal dateKey id0 prev)
      as Heq.
    { unfold V2.deleteItem, V2.deleteItem_calls_remote in *.
      destruct (String.eqb_spec id0 EmptyString) as [?|_]; [done|].
      destruct (JS.startsWith id0 _); [done|].
      destruct db; [|done]. destruct Hcase as [?|Hr]; [done|by rewrite Hr]. }
    rewrite Heq. bucket_simpl.
    repeat split. intros dk Hne. by apply removeLocal_lookup_ne.
  - unfold V2.deleteItem, V2.deleteItem_calls_remote. intros Hcall ->.
    destruct (String.eqb id0 _); [done|].
    destruct (JS.startsWith id0 _); [done|]. by destruct db.
  - done.
Qed.

(** C1 fails for [deleteItem]: with [db] present and the remote delete
    rejected, the server item [r1] is still in the bucket. *)
Lemma rejected_remote_delete_keeps_item :
  bucket (V2.deleteItem true Rejected "2024-01-01" "r1"
            {[ "2024-01-01" := [mkItem "r1" "A" EmptyString 1000 (Some false)] ]})
         "2024-01-01"
  = [mkItem "r1" "A" EmptyString 1000 (Some false)].
Proof. reflexivity. Qed.

(** ** The upload sweep *)

Lemma elem_of_pendingEntries (m : ItemsMap) dk it :
  (dk, it) ∈ V2.pendingEntries m ↔
  ∃ arr, m !! dk = Some arr ∧ it ∈ arr ∧ isLocalId (id it).
Proof.
  unfold V2.pendingEntries. rewrite list_elem_of_bind. split.
  - intros [[dk' arr] [Hin Hm]]. apply elem_of_map_to_list in Hm.
    apply list_elem_of_bind in Hin as [it' [Hin Hit']].
    destruct (isLocalId (id it')) eqn:Hloc.
    + apply list_elem_of_singleton in Hin. simplify_eq.
      exists arr. by rewrite Hloc.
    + by apply not_elem_of_nil in Hin.
  - intros [arr (Hm & Hit & Hloc)]. exists (dk, arr). split.
    + apply list_elem_of_bind. exists it. split; [|done].
      destruct (isLocalId (id it)); [by left|done].
    + by apply elem_of_map_to_list.
Qed.

(** With [db] present, every event that installs a new [itemsMap] runs
    the sweep again, over all entries then pending. *)
Lemma sweep_runs_on_every_itemsMap_change tz visibleDates s ev :
  V2.db s = true →
  V2.itemsMapRef (V2.update tz visibleDates ev s) ≠ V2.itemsMapRef s →
  V2.db (V2.update tz visibleDates ev s) = true →
  V2.sweepCreates (V2.step tz visibleDates s ev)
  = V2.sweepCreates (V2.update tz visibleDates ev s)
    ++ V2.pendingEntries (V2.itemsMap (V2.update tz visibleDates ev s)).
Proof.
  intros Hdb Href Hdb'. unfold V2.step, V2.uploadPending.
  rewrite Hdb, Hdb'. simpl.
  destruct (Nat.eqb_spec (V2.itemsMapRef s)
              (V2.itemsMapRef (V2.update tz visibleDates ev s))) as [Heq|_];
    [by rewrite Heq in Href|done].
Qed.

(** C7 on the code, for one item pending when [db] becomes available.
    One availability transition, then the fetch of the same render cycle
    installs its merged map: the sweep has called [addDoc] twice for the
    item.  Likewise when, after the transition, the user adds an item to
    another day: the sweep calls [addDoc] for the pending item again, and
    once for the new item, which [addItem] is creating itself. *)
Theorem sweep_attempts_twice_in_one_availability :
  (V2.availability_transitions false
     [V2.SetDb true; V2.FetchSettled 2000 (QuerySnapshot [])] = 1%nat
   ∧ V2.sweep_attempts ("2024-01-01", localRec "k3x9" "Title" EmptyString 1000)
       (V2.run (JSDate.fixed_zone 0) ["2024-01-02"; "2024-01-01"]
          (V2.mounted {[ "2024-01-01" := [localRec "k3x9" "Title" EmptyString 1000] ]})
          [V2.SetDb true; V2.FetchSettled 2000 (QuerySnapshot [])])
     = 2%nat)
  ∧ (V2.availability_transitions false
       [V2.SetDb true; V2.AddItem "2024-01-02" "New" EmptyString "q7" 3000] = 1%nat
     ∧ V2.sweep_attempts ("2024-01-01", localRec "k3x9" "Title" EmptyString 1000)
         (V2.run (JSDate.fixed_zone 0) ["2024-01-02"; "2024-01-01"]
            (V2.mounted {[ "2024-01-01" := [localRec "k3x9" "Title" EmptyString 1000] ]})
            [V2.SetDb true; V2.AddItem "2024-01-02" "New" EmptyString "q7" 3000])
       = 2%nat
     ∧ V2.sweep_attempts ("2024-01-02", localRec "q7" "New" EmptyString 3000)
         (V2.run (JSDate.fixed_zone 0) ["2024-01-02"; "2024-01-01"]
            (V2.mounted {[ "2024-01-01" := [localRec "k3x9" "Title" EmptyString 1000] ]})
            [V2.SetDb true; V2.AddItem "2024-01-02" "New" EmptyString "q7" 3000])
       = 1%nat).
Proof. repeat split; reflexivity. Qed.

(** * Further properties of the code *)

(** ** The duplicate key determines title and time stamp *)

Lemma list_ascii_of_string_app s1 s2 :
  String.list_ascii_of_string (s1 +:+ s2)
  = String.list_ascii_of_string s1 ++ String.list_ascii_of_string s2.
Proof.
  induction s1 as [|c s1 IH]; [done|].
  rewrite string_app_cons. simpl. by rewrite IH.
Qed.

Lemma list_ascii_of_string_inj s1 s2 :
  String.list_ascii_of_string s1 = String.list_ascii_of_string s2 → s1 = s2.
Proof.
  intros H.
  rewrite <- (String.string_of_list_ascii_of_string s1),
          <- (String.string_of_list_ascii_of_string s2).
  by rewrite H.
Qed.

(** Splitting at a separator that the right-hand parts do not hold. *)
Lemma app_sep_inj {A} (c : A) (l1 l2 a1 a2 : list A) :
  c ∉ a1 → c ∉ a2 → l1 ++ c :: a1 = l2 ++ c :: a2 → l1 = l2 ∧ a1 = a2.
Proof.
  intros H1 H2. revert l2.
  induction l1 as [|x l1 IH]; intros [|y l2] Heq; simplify_eq/=.
  - done.
  - exfalso. apply H1. apply elem_of_app. right. left.
  - exfalso. apply H2. apply elem_of_app. right. left.
  - destruct (IH l2) as [-> ->]; done.
Qed.

Lemma pretty_N_go_no_colon (x : N) (s : string) :
  colon ∉ String.list_ascii_of_string s →
  colon ∉ String.list_ascii_of_string (pretty_N_go x s).
Proof.
  revert s. induction (N.lt_wf_0 x) as [x _ IH]; intros s Hs.
  assert (x = 0 ∨ 0 < x)%N as [->|Hx] by lia.
  - by rewrite pretty_N_go_0.
  - rewrite pretty_N_go_step by done. apply IH; [by apply N.div_lt|].
    simpl. apply not_elem_of_cons. split; [|done].
    unfold pretty_N_char, colon. by repeat case_match.
Qed.

Lemma String_of_number_no_colon (n : Z) :
  colon ∉ String.list_ascii_of_string (JS.String_of_number n).
Proof.
  assert (∀ p : positive, colon ∉ String.list_ascii_of_string (pretty p)) as Hp.
  { intros p. unfold pretty, pretty_positive, pretty, pretty_N.
    case_decide; [done|]. apply pretty_N_go_no_colon. apply not_elem_of_nil. }
  unfold JS.String_of_number, pretty, pretty_Z. destruct n as [|p|p].
  - change (colon ∉ [ascii_of_nat 48]). intros H.
    apply list_elem_of_singleton in H. vm_compute in H. discriminate H.
  - apply Hp.
  - rewrite string_app_cons, string_app_nil. simpl.
    apply not_elem_of_cons. split; [done|apply Hp].
Qed.

Lemma dupKey_inj (a b : Item) :
  dupKey a = dupKey b ↔ title a = title b ∧ createdAtMs a = createdAtMs b.
Proof.
  split; [|by unfold dupKey; intros [-> ->]].
  unfold dupKey. intros H.
  apply (f_equal String.list_ascii_of_string) in H.
  rewrite !list_ascii_of_string_app in H.
  change (String.list_ascii_of_string "::") with [colon; colon] in H.
  assert (∀ l r : list ascii,
            l ++ [colon; colon] ++ r = (l ++ [colon]) ++ colon :: r) as Hre
    by (intros; by rewrite <- app_assoc).
  rewrite !Hre in H.
  apply app_sep_inj in H as [Ht Hn]; [|apply String_of_number_no_colon..].
  apply app_inv_tail in Ht. apply list_ascii_of_string_inj in Ht, Hn.
  split; [done|]. by apply (inj pretty) in Hn.
Qed.


(** ** What the merge keeps and what it drops *)

Lemma filter_ext_elem {A} (P Q : A → Prop) `{!∀ a, Decision (P a)}
    `{!∀ a, Decision (Q a)} (l : list A) :
  (∀ x, x ∈ l → P x ↔ Q x) → filter P l = filter Q l.
Proof.
  induction l as [|x l IH]; intros Hext; [done|].
  rewrite !filter_cons. rewrite IH by (intros; apply Hext; by right).
  destruct (decide (P x)) as [HP|HP], (decide (Q x)) as [HQ|HQ]; try done.
  - destruct HQ. by apply (Hext x); [left|].
  - destruct HP. by apply (Hext x); [left|].
Qed.

(** X2: the merged bucket of a visible day holds the server records of the
    day, normalized, and of the current bucket the local items that agree
    with no server record on both title and [createdAtMs]; nothing else.
    A confirmed item that the server no longer returns is gone. *)
Theorem merged_bucket_members
    (keepLocal : Item → bool) (visibleDates : list string)
    (fromServer prev : ItemsMap) (dk : string) (x : Item) :
  dk ∈ visibleDates →
  x ∈ bucket (mergeVisible keepLocal visibleDates fromServer prev) dk ↔
    (∃ s, s ∈ bucket fromServer dk ∧ x = not_pending s)
    ∨ (x ∈ bucket prev dk ∧ keepLocal x
       ∧ ∀ s, s ∈ bucket fromServer dk →
              ¬ (title s = title x ∧ createdAtMs s = createdAtMs x)).
Proof.
  intros Hdk. bucket_simpl. unfold mergeDay.
  rewrite (Array_sort_Permutation byCreatedAt). unfold mergeCandidates.
  rewrite elem_of_app, list_elem_of_fmap, !list_elem_of_filter.
  rewrite elem_of_list_to_set, list_elem_of_fmap.
  split.
  - intros [(s & -> & Hs)|(Hnd & Hloc & Hin)]; [left; eauto|right].
    split; [done|]. split; [done|]. intros s Hs Heq. apply Hnd.
    exists s. split; [|done]. symmetry. by apply dupKey_inj.
  - intros [(s & Hs & ->)|(Hin & Hloc & Hno)]; [left; eauto|right].
    split; [|done]. intros (s & Heq & Hs). apply (Hno s Hs).
    symmetry in Heq. by apply dupKey_inj in Heq.
Qed.

(** With no server record for the day, the pending item stays and the
    confirmed one goes. *)
Lemma merged_bucket_members_witness :
  mkItem "local-a" "C" EmptyString 2000 (Some true)
    ∈ bucket (mergeVisible V2.keepLocal ["2024-01-01"] ∅
        {[ "2024-01-01" := [mkItem "r1" "A" EmptyString 1000 (Some false);
                            mkItem "local-a" "C" EmptyString 2000 (Some true)] ]})
      "2024-01-01".
Proof.
  apply (merged_bucket_members V2.keepLocal ["2024-01-01"] ∅ _ "2024-01-01");
    [by left|].
  right. split; [by right; left|]. split; [exact I|].
  intros s Hs. by apply elem_of_nil in Hs.
Defined.

(** The test of the third variant keeps an item when its identity is empty
    or local. *)
Lemma V3_keepLocal_alt i :
  V3.keepLocal i = String.eqb (id i) EmptyString || JS.startsWith (id i) "local-".
Proof.
  unfold V3.keepLocal.
  by destruct (String.eqb (id i) EmptyString), (JS.startsWith (id i) "local-").
Qed.

(** X3: the merges of variants 2 and 3, which select the local items of
    the current bucket by different tests (lines 301 and 717), give the
    same state whenever no item of the current state has an empty
    identity. *)
Theorem merge_variants_agree
    (visibleDates : list string) (fromServer prev : ItemsMap) :
  (∀ dk it, it ∈ bucket prev dk → id it ≠ EmptyString) →
  V3.merge visibleDates fromServer prev = V2.merge visibleDates fromServer prev.
Proof.
  intros Hid. apply map_eq. intros dk. unfold V3.merge, V2.merge.
  rewrite !mergeVisible_lookup. case_decide; [|done].
  f_equal. unfold mergeDay, mergeCandidates. do 3 f_equal.
  apply filter_ext_elem. intros x Hx.
  rewrite V3_keepLocal_alt. unfold V2.keepLocal, isLocalId.
  destruct (String.eqb_spec (id x) EmptyString) as [He|_]; [|done].
  by destruct (Hid dk x Hx).
Qed.

Lemma merge_variants_agree_witness :
  V3.merge ["2024-01-01"] {[ "2024-01-01" := [mkItem "r1" "A" EmptyString 1000 None] ]}
    {[ "2024-01-01" := [mkItem "local-a" "C" EmptyString 2000 (Some true)] ]}
  = V2.merge ["2024-01-01"] {[ "2024-01-01" := [mkItem "r1" "A" EmptyString 1000 None] ]}
    {[ "2024-01-01" := [mkItem "local-a" "C" EmptyString 2000 (Some true)] ]}.
Proof.
  apply merge_variants_agree. intros dk it Hin.
  unfold bucket in Hin. destruct (decide (dk = "2024-01-01")) as [->|Hne].
  - rewrite lookup_singleton_eq in Hin. simpl in Hin.
    apply list_elem_of_singleton in Hin as ->. done.
  - rewrite lookup_singleton_ne in Hin by done. by apply elem_of_nil in Hin.
Defined.

(** ** Grouping the query snapshot *)

Lemma or_string_nonempty s d : s ≠ EmptyString → JS.or_string s d = s.
Proof.
  intros Hs. unfold JS.or_string.
  by destruct (String.eqb_spec s EmptyString).
Qed.

Lemma groupDocs_step_buckets tz now docs acc dk :
  Forall (λ d, data_dateKey d ≠ EmptyString) docs →
  bucket (foldl (λ fromServer doc,
             let dateKey :=
               JS.or_string (data_dateKey doc)
                 (V2.formatDateKey tz (JSDate.Date_of_value
                    (Some (from_option (λ c, if decide (c = 0%Z) then now else c)
                                       now (data_createdAtMs doc))))) in
             let rec :=
               {| id := doc_id doc;
                  title := JS.or_string (data_title doc) EmptyString;
                  link := JS.or_string (data_link doc) EmptyString;
                  createdAtMs := default now (data_createdAtMs doc);
                  pending := None |} in
             <[dateKey := bucket fromServer dateKey ++ [rec]]> fromServer)
          acc docs) dk
  = bucket acc dk ++ (V2.serverRec now <$> filter (λ d, data_dateKey d = dk) docs).
Proof.
  intros Hkeys. revert acc.
  induction Hkeys as [|doc docs Hdoc _ IH]; intros acc; cbn [foldl].
  - rewrite filter_nil. simpl. by rewrite app_nil_r.
  - rewrite IH. cbv zeta.
    rewrite !(or_string_nonempty (data_dateKey doc)) by done.
    rewrite bucket_insert, filter_cons.
    destruct (decide (data_dateKey doc = dk)) as [->|Hne].
    + rewrite fmap_cons, <- app_assoc. done.
    + done.
Qed.

(** X4: every document of the snapshot is filed under its own [dateKey], and
    each day's records stand in the order of the snapshot; so a snapshot
    ordered by [createdAtMs], as the query asks, gives ordered buckets. *)
Theorem groupDocs_keeps_query_order
    (tz : JSDate.TimeZone) (now : Z) (docs : list Doc) (dk : string) :
  Forall (λ d, data_dateKey d ≠ EmptyString) docs →
  bucket (V2.groupDocs tz now docs) dk
  = V2.serverRec now <$> filter (λ d, data_dateKey d = dk) docs
  ∧ (ordered (V2.serverRec now <$> docs) →
     ordered (bucket (V2.groupDocs tz now docs) dk)).
Proof.
  intros Hkeys.
  assert (bucket (V2.groupDocs tz now docs) dk
          = V2.serverRec now <$> filter (λ d, data_dateKey d = dk) docs) as Heq.
  { unfold V2.groupDocs. rewrite groupDocs_step_buckets by done.
    unfold bucket. by rewrite lookup_empty. }
  split; [done|]. rewrite Heq. clear Heq Hkeys.
  rewrite <- !StronglySorted_ordered.
  induction docs as [|d docs IH]; intros Hs; [constructor|].
  rewrite fmap_cons in Hs. apply StronglySorted_inv in Hs as [Hs Hall].
  rewrite filter_cons. case_decide; [|by apply IH].
  rewrite fmap_cons. constructor; [by apply IH|].
  apply Forall_forall. intros y Hy.
  apply list_elem_of_fmap in Hy as (d' & -> & Hd').
  apply list_elem_of_filter in Hd' as [_ Hd'].
  rewrite Forall_forall in Hall. apply Hall.
  apply list_elem_of_fmap. eauto.
Qed.

Lemma groupDocs_keeps_query_order_witness :
  bucket (V2.groupDocs (JSDate.fixed_zone 0) 5000
            [mkDoc "r1" "A" EmptyString "2024-01-01" (Some 1000%Z);
             mkDoc "r2" "B" EmptyString "2024-01-02" (Some 2000%Z);
             mkDoc "r3" "C" EmptyString "2024-01-01" (Some 3000%Z)])
         "2024-01-01"
  = [mkItem "r1" "A" EmptyString 1000 None; mkItem "r3" "C" EmptyString 3000 None].
Proof.
  refine (eq_trans (proj1 (groupDocs_keeps_query_order (JSDate.fixed_zone 0) 5000
            _ "2024-01-01" _)) _).
  - repeat constructor; done.
  - reflexivity.
Defined.


(** ** Clearing the local items (lines 460-475) *)

Lemma no_local_items_no_pending (m : ItemsMap) :
  (∀ dk it, it ∈ bucket m dk → isLocalId (id it) = false) →
  V2.pendingEntries m = [].
Proof.
  intros Hno. apply elem_of_nil_inv. intros [dk it] Hin.
  apply elem_of_pendingEntries in Hin as (arr & Hdk & Hit & Hloc).
  specialize (Hno dk it). unfold bucket in Hno. rewrite Hdk in Hno.
  rewrite (Hno Hit) in Hloc. done.
Qed.

Lemma bucket_clearLocalStorageDebug prev dk :
  bucket (V2.clearLocalStorageDebug prev) dk
  = filter (λ it, ¬ isLocalId (id it)) (bucket prev dk).
Proof.
  unfold V2.clearLocalStorageDebug, bucket. rewrite lookup_omap.
  destruct (prev !! dk) as [arr|]; simpl; [|done].
  case_decide as Hlen; simpl; [done|].
  destruct (filter _ arr); [done|simpl in Hlen; lia].
Qed.

(** X5: [clearLocalStorageDebug] leaves, in every day, the items without a
    local identity in the order they had, so no pending entry is left for
    the upload sweep; a day left without items loses its key, and clearing
    twice is clearing once. *)
Theorem clear_leaves_confirmed_items (prev : ItemsMap) (dk : string) :
  bucket (V2.clearLocalStorageDebug prev) dk
  = filter (λ it, ¬ isLocalId (id it)) (bucket prev dk)
  ∧ V2.pendingEntries (V2.clearLocalStorageDebug prev) = []
  ∧ (V2.clearLocalStorageDebug prev !! dk = None
     ↔ ∀ it, it ∈ bucket prev dk → isLocalId (id it))
  ∧ V2.clearLocalStorageDebug (V2.clearLocalStorageDebug prev)
    = V2.clearLocalStorageDebug prev.
Proof.
  split; [apply bucket_clearLocalStorageDebug|]. split; [|split].
  - apply no_local_items_no_pending. intros k it.
    rewrite bucket_clearLocalStorageDebug, list_elem_of_filter.
    intros [Hn _]. by destruct (isLocalId (id it)).
  - unfold V2.clearLocalStorageDebug, bucket. rewrite lookup_omap.
    destruct (prev !! dk) as [arr|]; simpl.
    + case_decide as Hlen; split.
      * done.
      * intros Hall. exfalso.
        destruct (filter _ arr) as [|x l] eqn:Hf; [simpl in Hlen; lia|].
        assert (x ∈ filter (λ it, ¬ isLocalId (id it)) arr) as Hx
          by (rewrite Hf; left).
        apply list_elem_of_filter in Hx as [Hx1 Hx2]. apply Hx1, Hall. exact Hx2.
      * intros _ it Hit. simpl in Hit.
        destruct (isLocalId (id it)) eqn:Hl; [done|].
        assert (it ∈ filter (λ it, ¬ isLocalId (id it)) arr) as Hx.
        { apply list_elem_of_filter. split; [rewrite Hl; intros []|done]. }
        destruct (filter _ arr); [by apply elem_of_nil in Hx|simpl in Hlen; lia].
      * done.
    + split; [|done]. intros _ it Hit. by apply elem_of_nil in Hit.
  - apply map_eq. intros k. unfold V2.clearLocalStorageDebug at 1.
    rewrite lookup_omap.
    destruct (V2.clearLocalStorageDebug prev !! k) as [arr|] eqn:Hk; simpl; [|done].
    unfold V2.clearLocalStorageDebug in Hk. rewrite lookup_omap in Hk.
    destruct (prev !! k) as [arr0|]; simpl in Hk; [|done].
    case_decide as Hlen; [|done]. injection Hk as <-.
    rewrite list_filter_filter_l by done.
    by rewrite decide_True.
Qed.

(** ** Promotion (lines 352-355, 404-407) *)

Lemma bucket_promote dateKey localId newId prev dk :
  bucket (promote dateKey localId newId prev) dk
  = if decide (dateKey = dk)
    then (λ it, if decide (id it = localId) then confirmed_as newId it else it)
           <$> bucket prev dateKey
    else bucket prev dk.
Proof. unfold promote. cbv zeta. by rewrite bucket_insert. Qed.

(** X6: once an item has been promoted to a server identity, a second
    promotion of the same local identity (the sweep and [addItem] both
    creating a document for it) changes nothing: the item keeps the
    identity of the first document. *)
Theorem second_promotion_is_ignored
    (dateKey localId newId1 newId2 : string) (prev : ItemsMap) :
  newId1 ≠ localId →
  promote dateKey localId newId2 (promote dateKey localId newId1 prev)
  = promote dateKey localId newId1 prev.
Proof.
  intros Hne. unfold promote at 1. cbv zeta.
  rewrite bucket_promote, decide_True by done.
  unfold promote. cbv zeta. rewrite insert_insert_eq. f_equal.
  rewrite <- list_fmap_compose. apply list_fmap_ext. intros _ it _. simpl.
  destruct (decide (id it = localId)) as [Hid|Hid]; simpl.
  - by rewrite decide_False.
  - by rewrite decide_False.
Qed.

Lemma second_promotion_is_ignored_witness :
  promote "2024-01-01" "local-a" "r2"
    (promote "2024-01-01" "local-a" "r1"
       {[ "2024-01-01" := [mkItem "local-a" "A" EmptyString 1000 (Some true)] ]})
  = {[ "2024-01-01" := [mkItem "r1" "A" EmptyString 1000 (Some false)] ]}.
Proof.
  rewrite (second_promotion_is_ignored "2024-01-01" "local-a" "r1" "r2") by done.
  by apply map_eq; intros k; vm_compute.
Defined.


(** ** The upload sweep (lines 326-363) *)

Lemma uploadAllResolved_no_pending newId entries m :
  (∀ dk lid, isLocalId (newId dk lid) = false) →
  (∀ dk it, it ∈ bucket m dk → isLocalId (id it) →
     ∃ e, e ∈ entries ∧ e.1 = dk ∧ id e.2 = id it) →
  V2.pendingEntries (V2.uploadAllResolved newId entries m) = [].
Proof.
  intros Hnew. revert m.
  induction entries as [|e entries IH]; intros m Hcov.
  - apply no_local_items_no_pending. intros dk it Hit.
    destruct (isLocalId (id it)) eqn:Hl; [|done].
    destruct (Hcov dk it Hit) as (e & He & _); [by rewrite Hl|].
    by apply elem_of_nil in He.
  - unfold V2.uploadAllResolved. cbn [foldl]. apply IH.
    intros dk it. rewrite bucket_promote.
    destruct (decide (e.1 = dk)) as [Hdk|Hdk].
    + intros Hit Hloc. apply list_elem_of_fmap in Hit as (it0 & -> & Hit0).
      destruct (decide (id it0 = id e.2)) as [Hid|Hid].
      * simpl in Hloc. by rewrite Hnew in Hloc.
      * rewrite Hdk in Hit0.
        destruct (Hcov dk it0 Hit0 Hloc) as (e' & He' & Hk & Hi).
        apply elem_of_cons in He' as [->|He']; [by rewrite Hi in Hid|].
        eauto.
    + intros Hit Hloc.
      destruct (Hcov dk it Hit Hloc) as (e' & He' & Hk & Hi).
      apply elem_of_cons in He' as [->|He']; [done|]. eauto.
Qed.

Lemma uploadAllResolved_fields newId entries m dk :
  (λ it, (title it, link it, createdAtMs it))
    <$> bucket (V2.uploadAllResolved newId entries m) dk
  = (λ it, (title it, link it, createdAtMs it)) <$> bucket m dk.
Proof.
  revert m. induction entries as [|e entries IH]; intros m; [done|].
  unfold V2.uploadAllResolved. cbn [foldl].
  etrans; [apply IH|]. rewrite bucket_promote.
  case_decide as Hdk; [|done]. rewrite Hdk, <- list_fmap_compose.
  apply list_fmap_ext. intros _ it _. simpl. by case_decide.
Qed.

(** X7: when every [addDoc] of a sweep resolves with a server identity
    (one that does not start with [local-]), the state after the sweep's
    promotions has no pending entry left, and every bucket holds the same
    titles, links and time stamps at the same positions. *)
Theorem sweep_promotes_every_pending_item
    (newId : string → string → string) (m : ItemsMap) (dk : string) :
  (∀ k lid, isLocalId (newId k lid) = false) →
  V2.pendingEntries (V2.uploadAllResolved newId (V2.pendingEntries m) m) = []
  ∧ (λ it, (title it, link it, createdAtMs it))
      <$> bucket (V2.uploadAllResolved newId (V2.pendingEntries m) m) dk
    = (λ it, (title it, link it, createdAtMs it)) <$> bucket m dk.
Proof.
  intros Hnew. split; [|apply uploadAllResolved_fields].
  apply uploadAllResolved_no_pending; [done|].
  intros k it Hit Hloc. exists (k, it). split; [|done].
  apply elem_of_pendingEntries. unfold bucket in Hit.
  destruct (m !! k) as [arr|] eqn:Hk; [|by apply elem_of_nil in Hit].
  eauto.
Qed.

Lemma sweep_promotes_every_pending_item_witness :
  V2.pendingEntries (V2.uploadAllResolved (λ k lid, "r-" +:+ lid)
    (V2.pendingEntries
       {[ "2024-01-01" := [mkItem "local-a" "A" EmptyString 1000 (Some true);
                           mkItem "r1" "B" EmptyString 2000 (Some false)] ]})
    {[ "2024-01-01" := [mkItem "local-a" "A" EmptyString 1000 (Some true);
                        mkItem "r1" "B" EmptyString 2000 (Some false)] ]}) = [].
Proof.
  refine (proj1 (sweep_promotes_every_pending_item (λ k lid, "r-" +:+ lid)
                   _ "2024-01-01" _)).
  intros k lid. reflexivity.
Defined.

(** ** Adding and deleting (lines 381-447) *)

Lemma startsWith_local suffix : JS.startsWith ("local-" +:+ suffix) "local-" = true.
Proof. by destruct suffix. Qed.

Lemma local_id_nonempty suffix : String.eqb ("local-" +:+ suffix) EmptyString = false.
Proof. reflexivity. Qed.

Lemma insert_bucket_id (m : ItemsMap) dk :
  m !! dk ≠ Some [] →
  (if decide (0 < length (bucket m dk))%nat
   then <[dk := bucket m dk]> m else delete dk m) = m.
Proof.
  intros Hne. unfold bucket.
  destruct (m !! dk) as [[|x l]|] eqn:Hdk; cbn [default from_option].
  - done.
  - rewrite decide_True by (simpl; lia). by apply insert_id.
  - rewrite decide_False by (simpl; lia). by apply delete_id.
Qed.

(** X8: deleting the item that [addItem] has just inserted, while it still
    carries its local identity, restores the state before the insert,
    whether or not Firestore is configured and without a remote call:
    provided the bucket was ordered, no item of it had that identity, and
    the day was not held with an empty bucket. *)
Theorem delete_undoes_local_insert
    (db : bool) (remote : RemoteOutcome)
    (dateKey title0 link0 suffix : string) (now : Z) (prev : ItemsMap) :
  ordered (bucket prev dateKey) →
  (∀ it, it ∈ bucket prev dateKey → id it ≠ "local-" +:+ suffix) →
  prev !! dateKey ≠ Some [] →
  V2.deleteItem db remote dateKey ("local-" +:+ suffix)
    (insertLocal dateKey (localRec suffix title0 link0 now) prev) = prev
  ∧ V2.deleteItem_calls_remote db ("local-" +:+ suffix) = false.
Proof.
  intros Hord Hfresh Hne. split.
  - unfold V2.deleteItem. rewrite local_id_nonempty, startsWith_local.
    unfold V2.removeLocal, insertLocal. cbv zeta.
    rewrite bucket_insert.
    destruct (decide (dateKey = dateKey)) as [_|?]; [|done].
    rewrite insert_insert_eq, delete_insert_eq.
    rewrite (filter_Array_sort createdAtMs byCreatedAt byCreatedAt_key).
    rewrite filter_app, (filter_other_id _ _ Hfresh).
    rewrite (filter_none _ [localRec suffix title0 link0 now]), app_nil_r
      by (repeat constructor; intros H; by apply H).
    rewrite (Array_sort_of_sorted createdAtMs byCreatedAt byCreatedAt_key).
    + by apply insert_bucket_id.
    + by apply StronglySorted_ordered.
  - unfold V2.deleteItem_calls_remote.
    by rewrite local_id_nonempty, startsWith_local.
Qed.


Lemma delete_undoes_local_insert_witness :
  V2.deleteItem true Rejected "2024-01-01" "local-k3"
    (insertLocal "2024-01-01" (localRec "k3" "B" EmptyString 500)
       {[ "2024-01-01" := [mkItem "r1" "A" EmptyString 1000 (Some false)] ]})
  = {[ "2024-01-01" := [mkItem "r1" "A" EmptyString 1000 (Some false)] ]}.
Proof.
  refine (proj1 (delete_undoes_local_insert true Rejected "2024-01-01" "B"
            EmptyString "k3" 500
            {[ "2024-01-01" := [mkItem "r1" "A" EmptyString 1000 (Some false)] ]}
            _ _ _)).
  - apply StronglySorted_ordered. repeat constructor.
  - intros it Hin. apply list_elem_of_singleton in Hin as ->. done.
  - done.
Defined.

Lemma Array_sort_fmap {A B} (f : A → B) (cA : A → A → Z) (cB : B → B → Z) l :
  (∀ x y, cB (f x) (f y) = cA x y) →
  f <$> JS.Array_sort cA l = JS.Array_sort cB (f <$> l).
Proof.
  intros Hf. induction l as [|x l IH]; [done|].
  cbn [JS.Array_sort foldr fmap list_fmap].
  change (foldr (JS.sort_insert cB) [] (f <$> l)) with (JS.Array_sort cB (f <$> l)).
  rewrite <- IH.
  change (foldr (JS.sort_insert cA) [] l) with (JS.Array_sort cA l).
  generalize (JS.Array_sort cA l). clear IH. intros l'.
  induction l' as [|y l' IH]; [done|].
  cbn [JS.sort_insert fmap list_fmap]. rewrite Hf.
  destruct (decide (0 < cA x y)%Z); [|done].
  rewrite fmap_cons. by f_equal.
Qed.

(** X9: when Firestore is configured and [addDoc] resolves, the state
    [addItem] leaves is the one a direct ordered insert of the confirmed
    record gives: the random local identity leaves no trace, provided no
    item of the day already carried it.  In the other cases (no Firestore,
    or a rejected [addDoc]) the local record stays and is an entry of the
    pending scan. *)
Theorem addItem_outcomes
    (db : bool) (created : option string)
    (dateKey title0 link0 suffix : string) (now : Z) (prev : ItemsMap) :
  (∀ it, it ∈ bucket prev dateKey → id it ≠ "local-" +:+ suffix) →
  (∀ newId, db = true → created = Some newId →
     addItem db created dateKey title0 link0 suffix now prev
     = insertLocal dateKey
         (confirmed_as newId (localRec suffix title0 link0 now)) prev)
  ∧ (db = false ∨ created = None →
     (dateKey, localRec suffix title0 link0 now)
       ∈ V2.pendingEntries (addItem db created dateKey title0 link0 suffix now prev)).
Proof.
  intros Hfresh. split.
  - intros newId -> ->. unfold addItem. cbv zeta. unfold promote, insertLocal.
    cbv zeta. rewrite bucket_insert.
    destruct (decide (dateKey = dateKey)) as [_|?]; [|done].
    rewrite insert_insert_eq. f_equal.
    rewrite (Array_sort_fmap _ byCreatedAt byCreatedAt).
    + f_equal. rewrite fmap_app. f_equal.
      * etrans; [|apply list_fmap_id]. apply list_fmap_ext.
        intros i it Hit. apply list_elem_of_lookup_2 in Hit.
        rewrite decide_False; [done|]. by apply Hfresh.
      * simpl. by rewrite decide_True.
    + intros x y. unfold byCreatedAt. by repeat case_decide.
  - intros Hoff. apply elem_of_pendingEntries.
    exists (JS.Array_sort byCreatedAt
              (bucket prev dateKey ++ [localRec suffix title0 link0 now])).
    split; [|split].
    + unfold addItem. cbv zeta.
      assert (∀ m : ItemsMap, (if db then match created with
                         | Some newId => promote dateKey
                             (id (localRec suffix title0 link0 now)) newId m
                         | None => m end else m) = m) as Hsame.
      { intros m. destruct Hoff as [->| ->]; [done|by destruct db]. }
      rewrite Hsame. unfold insertLocal. cbv zeta. by rewrite lookup_insert_eq.
    + rewrite (Array_sort_Permutation byCreatedAt).
      apply elem_of_app. right. by left.
    + change (Is_true (isLocalId ("local-" +:+ suffix))).
      unfold isLocalId. by rewrite local_id_nonempty, startsWith_local.
Qed.

Lemma addItem_outcomes_witness :
  addItem true (Some "r7") "2024-01-01" "B" EmptyString "k3" 500
    {[ "2024-01-01" := [mkItem "r1" "A" EmptyString 1000 (Some false)] ]}
  = {[ "2024-01-01" := [mkItem "r7" "B" EmptyString 500 (Some false);
                        mkItem "r1" "A" EmptyString 1000 (Some false)] ]}.
Proof.
  refine (eq_trans (proj1 (addItem_outcomes true (Some "r7") "2024-01-01" "B"
            EmptyString "k3" 500
            {[ "2024-01-01" := [mkItem "r1" "A" EmptyString 1000 (Some false)] ]}
            _) "r7" eq_refl eq_refl) _).
  - intros it Hin. apply list_elem_of_singleton in Hin as ->. done.
  - by apply map_eq; intros k; vm_compute.
Defined.


(** ** Saving and loading (lines 248-261, 366-379) *)

Lemma lookup_V2_toSave m dk :
  V2.toSave m !! dk
  = if decide (bucket m dk = []) then None else Some (stored_of <$> bucket m dk).
Proof.
  unfold V2.toSave, bucket. rewrite lookup_fmap.
  destruct (m !! dk) as [arr|] eqn:Hdk; cbn [default from_option].
  - destruct arr as [|x arr].
    + rewrite decide_True by done.
      rewrite (map_lookup_filter_None_2 _ m dk); [done|].
      right. intros arr' Harr'. rewrite Hdk in Harr'. injection Harr' as <-.
      simpl. lia.
    + rewrite decide_False by done.
      rewrite (map_lookup_filter_Some_2 _ m dk (x :: arr)); [done|done|].
      simpl. lia.
  - rewrite decide_True by done.
    rewrite (map_lookup_filter_None_2 _ m dk); [done|]. by left.
Qed.

(** X10: saving and loading again restores every item of every day, in
    order, with its identity, title, link and time stamp, when no identity
    is empty and no time stamp is zero; the [pending] flag is not stored
    but computed again from the identity, and a day without items comes
    back with no key at all. *)
Theorem reload_restores_saved_items
    (random : string → nat → string) (now : Z) (m : ItemsMap) (dk : string) :
  (∀ k it, it ∈ bucket m k → id it ≠ EmptyString ∧ createdAtMs it ≠ 0%Z) →
  bucket (V2.itemsMap_init random now (V2.raw_of_saved (V2.toSave m))) dk
  = (λ it, {| id := id it; title := title it; link := link it;
              createdAtMs := createdAtMs it;
              pending := Some (JS.startsWith (id it) "local-") |}) <$> bucket m dk
  ∧ (V2.itemsMap_init random now (V2.raw_of_saved (V2.toSave m)) !! dk = None
     ↔ bucket m dk = []).
Proof.
  intros Hok.
  assert (V2.itemsMap_init random now (V2.raw_of_saved (V2.toSave m)) !! dk
          = if decide (bucket m dk = []) then None
            else Some ((λ it, {| id := id it; title := title it; link := link it;
                                 createdAtMs := createdAtMs it;
                                 pending := Some (JS.startsWith (id it) "local-") |})
                         <$> bucket m dk)) as Hlk.
  { unfold V2.itemsMap_init, V2.raw_of_saved.
    rewrite map_lookup_imap, lookup_fmap, lookup_V2_toSave.
    case_decide as Hb; [done|]. cbn [fmap option_fmap option_map mbind option_bind].
    f_equal. rewrite <- !list_fmap_compose.
    rewrite imap_fmap. unfold compose. 
    rewrite <- imap_const.
    apply imap_ext. intros i it Hit. cbn.
    apply list_elem_of_lookup_2 in Hit. destruct (Hok _ _ Hit) as [Hid Hc].
    destruct it as [i0 t0 l0 c0 p0]; simpl in *.
    rewrite decide_False by done.
    destruct (String.eqb_spec i0 EmptyString) as [?|_]; [done|].
    f_equal.
    - unfold JS.or_string. by destruct (String.eqb_spec t0 EmptyString).
    - unfold JS.or_string. by destruct (String.eqb_spec l0 EmptyString). }
  split.
  - unfold bucket at 1. rewrite Hlk. case_decide as Hb; [by rewrite Hb|done].
  - rewrite Hlk. by case_decide.
Qed.

Lemma reload_restores_saved_items_witness :
  bucket (V2.itemsMap_init (λ _ _, "zz") 9000 (V2.raw_of_saved (V2.toSave
    {[ "2024-01-01" := [mkItem "local-a" "A" EmptyString 1000 (Some true);
                        mkItem "r1" "B" "http://b" 2000 None] ]}))) "2024-01-01"
  = [mkItem "local-a" "A" EmptyString 1000 (Some true);
     mkItem "r1" "B" "http://b" 2000 (Some false)].
Proof.
  refine (eq_trans (proj1 (reload_restores_saved_items (λ _ _, "zz") 9000
    {[ "2024-01-01" := [mkItem "local-a" "A" EmptyString 1000 (Some true);
                        mkItem "r1" "B" "http://b" 2000 None] ]} "2024-01-01" _)) _).
  - intros k it Hit.
    destruct (decide (k = "2024-01-01")) as [->|Hk].
    + apply elem_of_cons in Hit as [->|Hit]; [done|].
      apply list_elem_of_singleton in Hit as ->. done.
    + unfold bucket in Hit. rewrite lookup_singleton_ne in Hit by done.
      by apply elem_of_nil in Hit.
  - reflexivity.
Defined.


(** ** Without Firestore *)

Lemma step_without_firestore tz vis s ev :
  V2.db s = false → V2.availability_transitions false [ev] = 0%nat →
  V2.db (V2.step tz vis s ev) = false
  ∧ V2.sweepCreates (V2.step tz vis s ev) = V2.sweepCreates s.
Proof.
  intros Hdb Hev.
  assert (V2.db (V2.update tz vis ev s) = false
          ∧ V2.sweepCreates (V2.update tz vis ev s) = V2.sweepCreates s) as [Hd Hs].
  { destruct ev as [[]| | | |remote dateKey id0]; simpl in *; try done.
    - by rewrite Hdb.
    - destruct (String.eqb id0 EmptyString); [done|].
      unfold V2.deleteItem_calls_remote. rewrite Hdb, andb_false_r. done. }
  unfold V2.step. cbv zeta. unfold V2.uploadPending. rewrite Hd.
  by destruct (_ || _).
Qed.

(** X11: as long as [initFirebase] has not handed over a Firestore handle
    (no availability transition in the trace), [db] stays [null] and the
    sweep never calls [addDoc], whatever is added, deleted or loaded. *)
Theorem no_upload_without_firestore
    (tz : JSDate.TimeZone) (visibleDates : list string)
    (m : ItemsMap) (evs : list V2.Event) :
  V2.availability_transitions false evs = 0%nat →
  V2.db (V2.run tz visibleDates (V2.mounted m) evs) = false
  ∧ V2.sweepCreates (V2.run tz visibleDates (V2.mounted m) evs) = [].
Proof.
  assert (∀ s, V2.db s = false → V2.sweepCreates s = [] →
            V2.availability_transitions false evs = 0%nat →
            V2.db (V2.run tz visibleDates s evs) = false
            ∧ V2.sweepCreates (V2.run tz visibleDates s evs) = []) as Hgen.
  { induction evs as [|ev evs IH]; intros s Hdb Hsw Hev; [done|].
    assert (V2.availability_transitions false [ev] = 0%nat
            ∧ V2.availability_transitions false evs = 0%nat) as [Hev1 Hev2].
    { destruct ev as [[]| | | |]; simpl in *; try done; lia. }
    destruct (step_without_firestore tz visibleDates s ev Hdb Hev1) as [Hd Hs].
    unfold V2.run. cbn [foldl]. apply IH; [done|by rewrite Hs|done]. }
  intros Hev. by apply Hgen.
Qed.

Lemma no_upload_without_firestore_witness :
  V2.sweepCreates (V2.run (JSDate.fixed_zone 0) ["2024-01-01"]
    (V2.mounted {[ "2024-01-01" := [mkItem "local-a" "A" EmptyString 1000 (Some true)] ]})
    [V2.SetDb false; V2.AddItem "2024-01-01" "B" EmptyString "k3" 2000;
     V2.DeleteItem Resolved "2024-01-01" "local-a"]) = [].
Proof.
  refine (proj2 (no_upload_without_firestore (JSDate.fixed_zone 0) ["2024-01-01"]
            _ _ _)).
  reflexivity.
Defined.

(** ** Day keys (lines 171-173, 186-188) *)

(** X12: two valid dates get the same key from [formatDateKey] exactly when
    they fall on the same local calendar date. *)
Theorem formatDateKey_same_key_same_local_date
    (tz : JSDate.TimeZone) (t1 t2 : Z) :
  V2.formatDateKey tz (Some t1) = V2.formatDateKey tz (Some t2)
  ↔ JSDate.localCalendarDate tz t1 = JSDate.localCalendarDate tz t2.
Proof.
  rewrite !formatDateKey_valid. unfold JSDate.localCalendarDate. split.
  - intros Hk. apply dateKeyOf_inj in Hk. by rewrite Hk.
  - intros Hd. by rewrite Hd.
Qed.

(** X13: [localMidnight] gives an instant of the same local calendar date,
    and applied to its own result it gives that result again. *)
Theorem localMidnight_keeps_local_date (tz : JSDate.TimeZone) (now : Z) :
  JSDate.keeps_midnight_day tz →
  ¬ (0 ≤ JSDate.YearFromTime (JSDate.LocalTime tz now) ≤ 99)%Z →
  JSDate.validTime (JSDate.UTC tz (JSDate.MakeDate
     (JSDate.Day (JSDate.LocalTime tz now)) 0)) →
  ∃ b, V2.localMidnight tz (Some now) = Some b
       ∧ JSDate.localCalendarDate tz b = JSDate.localCalendarDate tz now
       ∧ V2.localMidnight tz (Some b) = Some b.
Proof.
  intros Hmid Hyear Hvalid.
  pose proof (Hmid (JSDate.Day (JSDate.LocalTime tz now))) as Hb.
  eexists. split; [|split].
  - rewrite (localMidnight_valid _ _ Hyear). by apply TimeClip_valid.
  - unfold JSDate.localCalendarDate. by rewrite Hb.
  - destruct (same_Day_same_fields _ _ Hb) as (Hy & _ & _).
    rewrite localMidnight_valid by (by rewrite Hy).
    rewrite Hb. by apply TimeClip_valid.
Qed.

Lemma localMidnight_keeps_local_date_witness :
  ∃ b : Z,
    V2.localMidnight (JSDate.fixed_zone (-10800000)) (Some 1704157200000%Z) = Some b
    ∧ JSDate.localCalendarDate (JSDate.fixed_zone (-10800000)) b
      = JSDate.localCalendarDate (JSDate.fixed_zone (-10800000)) 1704157200000%Z
    ∧ V2.localMidnight (JSDate.fixed_zone (-10800000)) (Some b) = Some b.
Proof.
  apply (localMidnight_keeps_local_date (JSDate.fixed_zone (-10800000)) 1704157200000).
  - apply fixed_zone_keeps_midnight.
  - vm_compute. intros [_ H]. by apply H.
  - vm_compute. discriminate.
Defined.

(** ** Variant 1 (lines 51-64) *)

(** X14: in the local-only variant [addItem] puts the new item at the end
    of the day's bucket and [removeItem] with its identity takes it out
    again, leaving the bucket as it was when no other item of the day had
    that identity; no other day is touched. *)
Theorem V1_remove_undoes_add
    (dateKey title0 link0 random : string) (prev : gmap string (list V1.Item)) :
  (∀ it, it ∈ bucket prev dateKey → V1.id it ≠ random) →
  bucket (V1.addItem dateKey title0 link0 random prev) dateKey
  = bucket prev dateKey ++ [V1.mkItem random title0 link0]
  ∧ bucket (V1.removeItem dateKey random
              (V1.addItem dateKey title0 link0 random prev)) dateKey
    = bucket prev dateKey
  ∧ ∀ dk, dk ≠ dateKey →
      V1.removeItem dateKey random (V1.addItem dateKey title0 link0 random prev) !! dk
      = prev !! dk.
Proof.
  intros Hfresh. unfold V1.removeItem, V1.addItem. cbv zeta.
  rewrite !bucket_insert.
  destruct (decide (dateKey = dateKey)) as [_|?]; [|done].
  split; [done|]. split.
  - rewrite filter_app, (filter_all _ (bucket prev dateKey)), filter_none.
    + by rewrite app_nil_r.
    + repeat constructor. intros H. by apply H.
    + apply Forall_forall. exact Hfresh.
  - intros dk Hne. by rewrite !lookup_insert_ne.
Qed.

Lemma V1_remove_undoes_add_witness :
  bucket (V1.removeItem "2024-01-01" "k9"
            (V1.addItem "2024-01-01" "B" EmptyString "k9"
               {[ "2024-01-01" := [V1.mkItem "k1" "A" EmptyString] ]})) "2024-01-01"
  = [V1.mkItem "k1" "A" EmptyString].
Proof.
  refine (eq_trans (proj1 (proj2 (V1_remove_undoes_add "2024-01-01" "B" EmptyString
            "k9" {[ "2024-01-01" := [V1.mkItem "k1" "A" EmptyString] ]} _))) _).
  - intros it Hin. apply list_elem_of_singleton in Hin as ->. done.
  - reflexivity.
Defined.


(** ** The window of variants 1 and 3 (lines 11-35, 592-659) *)

Lemma padStart0_year y :
  (1000 ≤ y ≤ 9999)%Z →
  JSDate.padStart0 4 (JS.String_of_number y) = JS.String_of_number y.
Proof.
  intros Hy.
  assert (forallb (λ k : nat,
            String.eqb (JSDate.padStart0 4 (JS.String_of_number (1000 + Z.of_nat k)))
                       (JS.String_of_number (1000 + Z.of_nat k)))
            (seq 0 (Z.to_nat 9000)) = true) as Hall by (vm_compute; reflexivity).
  rewrite forallb_forall in Hall.
  specialize (Hall (Z.to_nat (y - 1000))).
  replace (1000 + Z.of_nat (Z.to_nat (y - 1000)))%Z with y in Hall by lia.
  apply String.eqb_eq, Hall, in_seq. lia.
Qed.

Lemma string_length_2 (s : string) :
  String.length s = 2%nat → ∃ a b, s = String a (String b EmptyString).
Proof. destruct s as [|a [|b [|? ?]]]; try done. eauto. Qed.

Lemma year_length y :
  (1000 ≤ y ≤ 9999)%Z → String.length (JS.String_of_number y) = 4%nat.
Proof.
  intros Hy.
  assert (forallb (λ k : nat,
            Nat.eqb (String.length (JS.String_of_number (1000 + Z.of_nat k))) 4)
            (seq 0 (Z.to_nat 9000)) = true) as Hall by (vm_compute; reflexivity).
  rewrite forallb_forall in Hall.
  specialize (Hall (Z.to_nat (y - 1000))).
  replace (1000 + Z.of_nat (Z.to_nat (y - 1000)))%Z with y in Hall by lia.
  apply Nat.eqb_eq, Hall, in_seq. lia.
Qed.

Lemma substring_key (y a b rest : string) :
  String.length y = 4%nat → String.length a = 2%nat → String.length b = 2%nat →
  String.substring 0 10 (y +:+ "-" +:+ a +:+ "-" +:+ b +:+ rest)
  = y +:+ "-" +:+ a +:+ "-" +:+ b.
Proof.
  intros Hy Ha Hb.
  destruct (string_length_2 a Ha) as (a1 & a2 & ->).
  destruct (string_length_2 b Hb) as (b1 & b2 & ->).
  destruct y as [|y1 [|y2 [|y3 [|y4 [|? ?]]]]]; try done.
  repeat first [rewrite string_app_cons | rewrite string_app_nil].
  cbn [String.substring]. by destruct rest.
Qed.

Lemma toISOString_date t :
  (1000 ≤ JSDate.YearFromTime t ≤ 9999)%Z →
  String.substring 0 10 <$> JSDate.toISOString (Some t)
  = Some (V2.dateKeyOf (JSDate.calendarDate (JSDate.Day t))).
Proof.
  intros Hy. rewrite <- calendarDate_of_time.
  pose proof (calendarDate_range (JSDate.Day t)) as [Hm Hd].
  rewrite <- calendarDate_of_time in Hm, Hd.
  cbn [fst snd] in Hm, Hd.
  unfold V2.dateKeyOf.
  change (String.substring 0 10 <$> JSDate.toISOString (Some t))
    with (Some (String.substring 0 10
      ((if (0 <=? JSDate.YearFromTime t)%Z && (JSDate.YearFromTime t <=? 9999)%Z
        then JSDate.padStart0 4 (JS.String_of_number (JSDate.YearFromTime t))
        else (if (JSDate.YearFromTime t <? 0)%Z then "-" else "+")
             +:+ JSDate.padStart0 6 (JS.String_of_number (Z.abs (JSDate.YearFromTime t))))
       +:+ "-" +:+ V2.pad (Some (JSDate.MonthFromTime t + 1)%Z)
       +:+ "-" +:+ V2.pad (Some (JSDate.DateFromTime t))
       +:+ "T" +:+ JSDate.padStart0 2 (JS.String_of_number (JSDate.HourFromTime t))
       +:+ ":" +:+ JSDate.padStart0 2 (JS.String_of_number (JSDate.MinFromTime t))
       +:+ ":" +:+ JSDate.padStart0 2 (JS.String_of_number (JSDate.SecFromTime t))
       +:+ "." +:+ JSDate.padStart0 3 (JS.String_of_number (JSDate.msFromTime t))
       +:+ "Z"))).
  assert ((0 <=? JSDate.YearFromTime t)%Z && (JSDate.YearFromTime t <=? 9999)%Z = true)
    as Hin by (apply andb_true_intro; split; apply Z.leb_le; lia).
  rewrite Hin, padStart0_year by done.
  rewrite substring_key; [done|by apply year_length|apply pad_two_digits; lia|].
  apply pad_two_digits. lia.
Qed.

Lemma Day_days_before now i :
  JSDate.Day (now - i * V3.MS_PER_DAY) = (JSDate.Day now - i)%Z.
Proof.
  unfold JSDate.Day, V3.MS_PER_DAY, JSDate.msPerDay.
  Z.div_mod_to_equations. lia.
Qed.

Lemma year_range_valid t :
  (1000 ≤ JSDate.YearFromTime t ≤ 9999)%Z → JSDate.validTime t.
Proof.
  unfold JSDate.YearFromTime, JSDate.validTime. intros Hy.
  pose proof (YearFromDay_spec (JSDate.Day t)) as Hs.
  revert Hy Hs. generalize (JSDate.YearFromDay (JSDate.Day t)). intros y Hy Hs.
  assert (JSDate.DayFromYear 1000 ≤ JSDate.DayFromYear y)%Z as H1
    by (unfold JSDate.DayFromYear; Z.div_mod_to_equations; lia).
  assert (JSDate.DayFromYear (y + 1) ≤ JSDate.DayFromYear 10000)%Z as H2
    by (unfold JSDate.DayFromYear; Z.div_mod_to_equations; lia).
  change (JSDate.DayFromYear 1000) with (-354285)%Z in H1.
  change (JSDate.DayFromYear 10000) with 2932897%Z in H2.
  revert Hs. unfold JSDate.Day, JSDate.msPerDay. intros Hs.
  Z.div_mod_to_equations. lia.
Qed.

(** X15: in variants 1 and 3 the window holds the keys of the [n]
    consecutive UTC calendar dates that end at the UTC date of [now],
    newest first and all different, for four-digit years from 1000 on;
    the two variants compute the same window. *)
Theorem utc_window_is_utc_calendar_days (n : nat) (now : Z) :
  Forall (λ i : nat,
            (1000 ≤ JSDate.YearFromDay (JSDate.Day now - Z.of_nat i) ≤ 9999)%Z)
         (seq 0 n) →
  V3.visibleDates_of n now
  = Some ((λ i : nat, V2.dateKeyOf (JSDate.calendarDate
             (JSDate.Day now - Z.of_nat i))) <$> seq 0 n)
  ∧ V1.visibleDates_of n now = V3.visibleDates_of n now
  ∧ NoDup ((λ i : nat, V2.dateKeyOf (JSDate.calendarDate
             (JSDate.Day now - Z.of_nat i))) <$> seq 0 n).
Proof.
  intros Hyears. split; [|split; [done|]].
  - unfold V3.visibleDates_of. apply mapM_Some_2, Forall2_fmap_r.
    apply Forall_Forall2_diag. eapply Forall_impl; [exact Hyears|].
    intros i Hy. cbv beta in Hy. unfold compose.
    rewrite <- Day_days_before in Hy.
    unfold V3.formatDateKey, V3.makeDateBefore.
    change (JSDate.Date_of_value ((λ t, t - Z.of_nat i * V3.MS_PER_DAY)%Z
              <$> JSDate.getTime (Some now)))
      with (JSDate.TimeClip (now - Z.of_nat i * V3.MS_PER_DAY)).
    rewrite TimeClip_valid by (by apply year_range_valid).
    rewrite toISOString_date by done. by rewrite Day_days_before.
  - apply NoDup_fmap_2_strong; [|apply NoDup_seq].
    intros i j _ _ Hk. apply dateKeyOf_inj in Hk. lia.
Qed.

Lemma utc_window_is_utc_calendar_days_witness :
  V3.visibleDates_of 3 1704157200000
  = Some ["2024-01-02"; "2024-01-01"; "2023-12-31"].
Proof.
  refine (eq_trans (proj1 (utc_window_is_utc_calendar_days 3 1704157200000 _)) _).
  - repeat constructor; vm_compute; discriminate.
  - reflexivity.
Defined.




(** X17: what reaches local storage when a day loses its last item.  In
    variant 3 [removeItem] keeps the day's key and the empty list is
    saved; in variant 2 the removal updater drops the key exactly when
    every item of the day had the removed identity, and the saved object
    never holds that day without items. *)
Theorem emptied_day_in_storage (dateKey id0 : string) (m : ItemsMap) :
  V3.toSave (V3.removeItem dateKey id0 m) !! dateKey
  = Some (stored_of <$> filter (λ it, id it ≠ id0) (bucket m dateKey))
  ∧ (V2.removeLocal dateKey id0 m !! dateKey = None
     ↔ ∀ it, it ∈ bucket m dateKey → id it = id0)
  ∧ (V2.toSave (V2.removeLocal dateKey id0 m) !! dateKey = None
     ↔ ∀ it, it ∈ bucket m dateKey → id it = id0).
Proof.
  assert (filter (λ it, id it ≠ id0) (bucket m dateKey) = []
          ↔ ∀ it, it ∈ bucket m dateKey → id it = id0) as Hnone.
  { split.
    - intros Hf it Hit. destruct (decide (id it = id0)) as [|Hne]; [done|].
      assert (it ∈ filter (λ it, id it ≠ id0) (bucket m dateKey)) as Hin
        by (by apply list_elem_of_filter).
      rewrite Hf in Hin. by apply elem_of_nil in Hin.
    - intros Hall. apply filter_none, Forall_forall.
      intros it Hit Hne. by apply Hne, Hall. }
  split; [|split].
  - unfold V3.toSave, V3.removeItem. cbv zeta.
    by rewrite lookup_fmap, lookup_insert_eq.
  - rewrite <- Hnone. unfold V2.removeLocal. cbv zeta.
    destruct (filter (λ it, id it ≠ id0) (bucket m dateKey)) as [|x l].
    + rewrite decide_False by (simpl; lia). by rewrite lookup_delete_eq.
    + rewrite decide_True by (simpl; lia). by rewrite lookup_insert_eq.
  - rewrite <- Hnone, lookup_V2_toSave, bucket_removeLocal.
    destruct (decide (dateKey = dateKey)) as [_|?]; [|done].
    by case_decide.
Qed.


Lemma elem_of_bucket_itemsMap_init random now raw dk it :
  it ∈ bucket (V2.itemsMap_init random now raw) dk →
  ∃ r, r ∈ bucket raw dk
       ∧ pending it = Some (from_option (λ s, JS.startsWith s "local-") false
                                        (V2.raw_id r))
       ∧ (∀ s, V2.raw_id r = Some s → s ≠ EmptyString → id it = s).
Proof.
  unfold V2.itemsMap_init, bucket. rewrite map_lookup_imap.
  destruct (raw !! dk) as [arr|]; simpl; [|by intros ?%elem_of_nil].
  intros Hit. apply list_elem_of_lookup_1 in Hit as [i Hi].
  rewrite list_lookup_imap in Hi.
  destruct (arr !! i) as [r|] eqn:Hr; [|done]. injection Hi as <-.
  exists r. split; [by eapply list_elem_of_lookup_2|]. split; [done|].
  intros s Hs Hne. cbn [id]. rewrite Hs.
  by destruct (String.eqb_spec s EmptyString).
Qed.

(** X18: every item that the [itemsMap] initializer flags as pending
    carries a local identity, so the sweep finds it once Firestore is
    available. *)
Theorem loaded_pending_items_are_swept
    (random : string → nat → string) (now : Z)
    (raw : gmap string (list V2.RawItem)) (dk : string) (it : Item) :
  it ∈ bucket (V2.itemsMap_init random now raw) dk →
  pending it = Some true →
  (dk, it) ∈ V2.pendingEntries (V2.itemsMap_init random now raw).
Proof.
  intros Hit Hp. apply elem_of_pendingEntries.
  pose proof Hit as Hit'. unfold bucket in Hit'.
  destruct (V2.itemsMap_init random now raw !! dk) as [arr|] eqn:Hdk;
    [|by apply elem_of_nil in Hit'].
  exists arr. split; [done|]. split; [done|].
  apply elem_of_bucket_itemsMap_init in Hit as (r & _ & Hpr & Hid).
  rewrite Hp in Hpr. injection Hpr as Hpr.
  destruct (V2.raw_id r) as [s|]; [|done]. cbn in Hpr.
  assert (s ≠ EmptyString) as Hne by (intros ->; done).
  rewrite (Hid s eq_refl Hne). unfold isLocalId. rewrite <- Hpr.
  by destruct (String.eqb_spec s EmptyString).
Qed.

Lemma loaded_pending_items_are_swept_witness :
  ("2024-01-01", mkItem "local-a" "A" EmptyString 1000 (Some true))
  ∈ V2.pendingEntries (V2.itemsMap_init (λ _ _, "zz") 9000
      {[ "2024-01-01" := [V2.mkRaw (Some "local-a") (Some "A") None (Some 1000%Z)] ]}).
Proof.
  apply (loaded_pending_items_are_swept (λ _ _, "zz") 9000
    {[ "2024-01-01" := [V2.mkRaw (Some "local-a") (Some "A") None (Some 1000%Z)] ]}).
  - vm_compute. left.
  - reflexivity.
Defined.
